(** * ArXiv paper store: loader, query executors and read API

    A shallow embedding of [problem2/load_data.py], [problem2/query_papers.py]
    and [problem2/api_server.py].

    Conventions of the embedding.
    - A Python [str] is a [string]; a character is a code point of the
      Latin-1 range (the 8-bit [ascii] type).  DynamoDB orders string keys by
      their UTF-8 bytes, which is the order of the code points, so
      [String.compare] is the store's key order.
    - A JSON field that may be absent or [null] is an [option].
    - The DynamoDB table is a finite map from the primary key pair (PK, SK) to
      the remaining attributes of the item stored under it. *)

From Stdlib Require Import QArith Ascii.
From stdpp Require Import gmap strings list sorting.

Local Open Scope nat_scope.

(** ** Characters and strings *)

Module Str.

Definition code (c : ascii) : N := Ascii.N_of_ascii c.

Definition in_range (lo hi : N) (c : ascii) : bool :=
  ((lo <=? code c) && (code c <=? hi))%N.

(** [a-z] and [A-Z] *)
Definition is_lower_az (c : ascii) : bool := in_range 97 122 c.
Definition is_upper_AZ (c : ascii) : bool := in_range 65 90 c.

(** the character class [[a-zA-Z]] of the tokenizer's pattern *)
Definition is_letter (c : ascii) : bool := is_lower_az c || is_upper_AZ c.

(** [str.lower] on one code point: the cased code points below U+0100 are
    A-Z and the Latin-1 capitals U+00C0..U+00DE without U+00D7; each is 32
    below its lowercase form. *)
Definition lower_char (c : ascii) : ascii :=
  if is_upper_AZ c || (in_range 192 222 c && negb (code c =? 215)%N)
  then Ascii.ascii_of_N (code c + 32)
  else c.

Fixpoint lower (s : string) : string :=
  match s with
  | EmptyString => EmptyString
  | String c s' => String (lower_char c) (lower s')
  end.

Fixpoint forallb (P : ascii -> bool) (s : string) : bool :=
  match s with
  | EmptyString => true
  | String c s' => P c && forallb P s'
  end.

(** [s.startswith(p)] *)
Fixpoint startswith (p s : string) : bool :=
  match p, s with
  | EmptyString, _ => true
  | String a p', String b s' => if decide (a = b) then startswith p' s' else false
  | String _ _, EmptyString => false
  end.

(** [s[n:]] *)
Fixpoint drop (n : nat) (s : string) : string :=
  match n, s with
  | O, _ => s
  | S n', String _ s' => drop n' s'
  | S _, EmptyString => EmptyString
  end.

(** [s[:n]] *)
Fixpoint take (n : nat) (s : string) : string :=
  match n, s with
  | O, _ => EmptyString
  | S n', String c s' => String c (take n' s')
  | S _, EmptyString => EmptyString
  end.

(** Python truthiness of a string: [bool(s)] *)
Definition truthy (s : string) : bool :=
  match s with EmptyString => false | String _ _ => true end.

(** append one character at the end *)
Definition snoc (s : string) (c : ascii) : string := s +:+ String c EmptyString.

End Str.

(** ** Keyword extractor ([load_data.py], lines 10-17 and 95-101) *)

Definition STOPWORDS : gset string :=
  list_to_set
    [ "the"; "a"; "an"; "and"; "or"; "but"; "in"; "on"; "at"; "to"; "for";
      "of"; "with"; "by"; "from"; "up"; "about"; "into"; "through"; "during";
      "is"; "are"; "was"; "were"; "be"; "been"; "being"; "have"; "has"; "had";
      "do"; "does"; "did"; "will"; "would"; "could"; "should"; "may"; "might";
      "can"; "this"; "that"; "these"; "those"; "we"; "our"; "use"; "using";
      "based"; "approach"; "method"; "paper"; "propose"; "proposed"; "show" ].

(** [re.findall(r"[a-zA-Z]+", s)]: the maximal runs of letters of [s], from
    left to right.  [cur] is the run being read. *)
Definition flush (cur : string) : list string :=
  if Str.truthy cur then [cur] else [].

Fixpoint findall_letters (cur : string) (s : string) : list string :=
  match s with
  | EmptyString => flush cur
  | String c s' =>
      if Str.is_letter c then findall_letters (Str.snoc cur c) s'
      else flush cur ++ findall_letters EmptyString s'
  end.

(** [text or ""] *)
Definition or_empty (text : option string) : string := default EmptyString text.

(** [tokenize(text)] *)
Definition tokenize (text : option string) : list string :=
  let tokens := findall_letters EmptyString (Str.lower (or_empty text)) in
  filter (fun t => (t ∉ STOPWORDS) ∧ 2 < String.length t) tokens.

(** [collections.Counter]: a dict from element to count, which keeps the
    order in which the elements were first inserted. *)
Fixpoint counter_incr (w : string) (cnt : list (string * nat)) : list (string * nat) :=
  match cnt with
  | [] => [(w, 1)]
  | (w', n) :: rest =>
      if decide (w' = w) then (w', S n) :: rest else (w', n) :: counter_incr w rest
  end.

Definition Counter (xs : list string) : list (string * nat) :=
  fold_left (fun cnt w => counter_incr w cnt) xs [].

(** [Counter.most_common(k)] is [sorted(items, key=count, reverse=True)[:k]]:
    a stable sort, so entries of equal count keep their insertion order. *)
Fixpoint mc_insert (x : string * nat) (l : list (string * nat)) : list (string * nat) :=
  match l with
  | [] => [x]
  | y :: l' => if x.2 <? y.2 then y :: mc_insert x l' else x :: y :: l'
  end.

Fixpoint mc_sort (l : list (string * nat)) : list (string * nat) :=
  match l with
  | [] => []
  | x :: l' => mc_insert x (mc_sort l')
  end.

Definition most_common (k : nat) (cnt : list (string * nat)) : list (string * nat) :=
  take k (mc_sort cnt).

(** [top_k_keywords_from_abstract(abstract, k)] *)
Definition top_k_keywords_from_abstract (abstract : option string) (k : nat) : list string :=
  let cnt := Counter (tokenize abstract) in
  (most_common k cnt).*1.

(** ** Data model ([load_data.py], lines 121-197) *)

(** An attribute value of a stored item: the loader writes strings, lists of
    strings and [None]. *)
Inductive Value := VNull | VStr (s : string) | VList (l : list string).

#[global] Instance Value_eq_dec : EqDecision Value.
Proof. solve_decision. Defined.

(** A derived item is a Python dict from attribute name to value. *)
Abbreviation Item := (gmap string Value).

(** One source record, as [p.get(field)] sees it: [None] when the field is
    absent or [null]. *)
Record Paper := {
  arxiv_id : option string;
  title : option string;
  authors : option (list string);
  abstract : option string;
  categories : option (list string);
  published : option string
}.

(** [f"{x}"] for a string or [None] *)
Definition fstr (x : option string) : string := default "None" x.

Definition v_opt (x : option string) : Value := from_option VStr VNull x.

Definition iso_to_date_str (iso_ts : string) : string := Str.take 10 iso_ts.

(** the locals of the loop body of [main] *)
Definition authors_of (p : Paper) : list string := default [] (authors p).
Definition abstract_of (p : Paper) : string := default "" (abstract p).
Definition categories_of (p : Paper) : list string := default [] (categories p).

Definition published_date (p : Paper) : string :=
  match published p with
  | Some iso => if Str.truthy iso then iso_to_date_str iso else "0000-00-00"
  | None => "0000-00-00"
  end.

Definition keywords_of (p : Paper) : list string :=
  top_k_keywords_from_abstract (Some (abstract_of p)) 10.

(** [f"{published_date}#{arxiv_id}"] *)
Definition date_id (p : Paper) : string :=
  published_date p +:+ "#" +:+ fstr (arxiv_id p).

Definition detail_item (p : Paper) : Item :=
  list_to_map
    [ ("PK", VStr ("PAPER#" +:+ fstr (arxiv_id p)));
      ("SK", VStr "DETAIL");
      ("GSI3PK", VStr ("PAPER#" +:+ fstr (arxiv_id p)));
      ("GSI3SK", VStr "DETAIL");
      ("arxiv_id", v_opt (arxiv_id p));
      ("title", v_opt (title p));
      ("authors", VList (authors_of p));
      ("abstract", VStr (abstract_of p));
      ("categories", VList (categories_of p));
      ("keywords", VList (keywords_of p));
      ("published", v_opt (published p));
      ("item_type", VStr "PAPER_DETAIL") ].

Definition cat_item (p : Paper) (cat : string) : Item :=
  list_to_map
    [ ("PK", VStr ("CATEGORY#" +:+ cat));
      ("SK", VStr (date_id p));
      ("arxiv_id", v_opt (arxiv_id p));
      ("title", v_opt (title p));
      ("authors", VList (authors_of p));
      ("abstract", VStr (abstract_of p));
      ("categories", VList (categories_of p));
      ("keywords", VList (keywords_of p));
      ("published", v_opt (published p));
      ("item_type", VStr "CATEGORY_ITEM") ].

Definition author_item (p : Paper) (au : string) : Item :=
  list_to_map
    [ ("PK", VStr ("AUTHORITEM#" +:+ au));
      ("SK", VStr (date_id p));
      ("GSI1PK", VStr ("AUTHOR#" +:+ au));
      ("GSI1SK", VStr (date_id p));
      ("arxiv_id", v_opt (arxiv_id p));
      ("title", v_opt (title p));
      ("categories", VList (categories_of p));
      ("published", v_opt (published p));
      ("item_type", VStr "AUTHOR_ITEM") ].

Definition kw_item (p : Paper) (kw : string) : Item :=
  list_to_map
    [ ("PK", VStr ("KEYWORDITEM#" +:+ kw));
      ("SK", VStr (date_id p));
      ("GSI2PK", VStr ("KW#" +:+ kw));
      ("GSI2SK", VStr (date_id p));
      ("arxiv_id", v_opt (arxiv_id p));
      ("title", v_opt (title p));
      ("categories", VList (categories_of p));
      ("published", v_opt (published p));
      ("item_type", VStr "KEYWORD_ITEM") ].

(** the loop over [keywords] with its [seen_kw] set (lines 180-197) *)
Fixpoint kw_items (p : Paper) (seen_kw : gset string) (keywords : list string) : list Item :=
  match keywords with
  | [] => []
  | kw :: rest =>
      if decide (kw ∈ seen_kw) then kw_items p seen_kw rest
      else kw_item p kw :: kw_items p ({[kw]} ∪ seen_kw) rest
  end.

(** the items one iteration of the loop over [papers] appends to
    [all_items], in the order it appends them *)
Definition project_paper (p : Paper) : list Item :=
  detail_item p
  :: (cat_item p <$> categories_of p)
  ++ (author_item p <$> authors_of p)
  ++ kw_items p ∅ (keywords_of p).

(** [counts], the [defaultdict(int)] of the four counters *)
Record Counts := {
  paper_detail_items : nat;
  category_items : nat;
  author_items : nat;
  keyword_items : nat
}.

(** [sum(counts.values())] *)
Definition sum_counts (c : Counts) : nat :=
  paper_detail_items c + category_items c + author_items c + keyword_items c.

Record LoadState := {
  total_papers : nat;
  counts : Counts;
  all_items : list Item
}.

Definition init_state : LoadState :=
  {| total_papers := 0;
     counts := {| paper_detail_items := 0; category_items := 0;
                  author_items := 0; keyword_items := 0 |};
     all_items := [] |}.

(** one iteration of [for p in papers] *)
Definition load_step (st : LoadState) (p : Paper) : LoadState :=
  {| total_papers := total_papers st + 1;
     counts :=
       {| paper_detail_items := paper_detail_items (counts st) + 1;
          category_items := category_items (counts st) + length (categories_of p);
          author_items := author_items (counts st) + length (authors_of p);
          keyword_items :=
            keyword_items (counts st) + length (kw_items p ∅ (keywords_of p)) |};
     all_items := all_items st ++ project_paper p |}.

Definition project_all (papers : list Paper) : LoadState :=
  fold_left load_step papers init_state.

(** ** Errors *)

Inductive Exception := Exc (detail : string).

Inductive Result (A : Type) := Ok (a : A) | Raise (e : Exception).
Arguments Ok {A} a.
Arguments Raise {A} e.

#[global] Instance Exception_eq_dec : EqDecision Exception.
Proof. solve_decision. Defined.

#[global] Instance Result_eq_dec `{EqDecision A} : EqDecision (Result A).
Proof. solve_decision. Defined.

#[global] Instance Result_ret : MRet Result := fun A a => Ok a.
#[global] Instance Result_bind : MBind Result := fun A B f m =>
  match m with Ok a => f a | Raise e => Raise e end.

(** ** The table ([load_data.py], lines 31-86 and 103-106) *)

(** The table maps a primary key pair (PK, SK) to the item stored under it. *)
Abbreviation Table := (gmap (string * string) Item).

(** ["AttributeDefinitions"]: the key attributes of the table and of its
    indexes, all of type S. *)
Definition AttributeDefinitions : list string :=
  ["PK"; "SK"; "GSI1PK"; "GSI1SK"; "GSI2PK"; "GSI2SK"; "GSI3PK"; "GSI3SK"].

Record KeySchema := { hash_attr : string; range_attr : string }.

(** ["Projection"]: [None] is ProjectionType ALL, [Some l] is INCLUDE with
    the non-key attributes [l]. *)
Record IndexSchema := {
  index_keys : KeySchema;
  index_projection : option (list string)
}.

Definition table_keys : KeySchema := {| hash_attr := "PK"; range_attr := "SK" |}.

Definition GlobalSecondaryIndexes : list (string * IndexSchema) :=
  [ ("AuthorIndex",
      {| index_keys := {| hash_attr := "GSI1PK"; range_attr := "GSI1SK" |};
         index_projection := Some ["arxiv_id"; "title"; "categories"; "published"] |});
    ("KeywordIndex",
      {| index_keys := {| hash_attr := "GSI2PK"; range_attr := "GSI2SK" |};
         index_projection := Some ["arxiv_id"; "title"; "categories"; "published"] |});
    ("PaperIdIndex",
      {| index_keys := {| hash_attr := "GSI3PK"; range_attr := "GSI3SK" |};
         index_projection := None |}) ].

(** the string value of an attribute, when it has one *)
Definition str_attr (name : string) (it : Item) : option string :=
  match it !! name with Some (VStr s) => Some s | _ => None end.

(** A key attribute holds a non-empty string. *)
Definition key_value_ok (v : Value) : bool :=
  match v with VStr s => Str.truthy s | _ => false end.

(** What the store accepts: PK and SK are present, and every key attribute
    that is present holds a non-empty string. *)
Definition item_ok (it : Item) : bool :=
  bool_decide (is_Some (it !! "PK")) && bool_decide (is_Some (it !! "SK"))
  && forallb (fun a => from_option key_value_ok true (it !! a)) AttributeDefinitions.

(** [batch.put_item(Item=it)] under [overwrite_by_pkeys=['PK','SK']]: the
    item replaces whatever is stored under its (PK, SK). *)
Definition put_item (table : Table) (it : Item) : Result Table :=
  if item_ok it then
    match str_attr "PK" it, str_attr "SK" it with
    | Some pk, Some sk => Ok (<[(pk, sk) := it]> table)
    | _, _ => Raise (Exc "ValidationException")
    end
  else Raise (Exc "ValidationException").

(** [put_batch(table, items)] *)
Fixpoint put_batch (table : Table) (items : list Item) : Result Table :=
  match items with
  | [] => Ok table
  | it :: rest => table' ← put_item table it; put_batch table' rest
  end.

(** [range(start, stop, step)] for a positive step *)
Fixpoint range_from (fuel i stop step : nat) : list nat :=
  match fuel with
  | O => []
  | S fuel' => if i <? stop then i :: range_from fuel' (i + step) stop step else []
  end.

Definition py_range (start stop step : nat) : list nat :=
  range_from stop start stop step.

(** [[all_items[i:i+25] for i in range(0, len(all_items), 25)]] *)
Definition batches (all_items : list Item) : list (list Item) :=
  (fun i => take 25 (drop i all_items)) <$> py_range 0 (length all_items) 25.

Fixpoint put_batches (table : Table) (bs : list (list Item)) : Result Table :=
  match bs with
  | [] => Ok table
  | b :: rest => table' ← put_batch table b; put_batches table' rest
  end.

(** [a / b] on integers: ZeroDivisionError when [b] is 0.  The quotient is
    kept as an exact rational. *)
Definition truediv (a b : nat) : Result Q :=
  match b with
  | O => Raise (Exc "ZeroDivisionError")
  | S _ => Ok (Z.of_nat a # Pos.of_nat b)
  end.

Record Summary := {
  loaded_papers : nat;
  created_items : nat;
  denorm_factor : Q;
  breakdown : Counts
}.

(** [main()], from the parsed corpus on: the table after the writes and the
    figures of the final summary. *)
Definition main (table : Table) (papers : list Paper) : Result (Table * Summary) :=
  let st := project_all papers in
  table' ← put_batches table (batches (all_items st));
  let total_items := sum_counts (counts st) in
  factor ← (if negb (total_papers st =? 0) then truediv total_items (total_papers st)
            else Ok (0 # 1));
  Ok (table',
      {| loaded_papers := total_papers st;
         created_items := total_items;
         denorm_factor := factor;
         breakdown := counts st |}).

(** ** The store's Query operation

    [table.query] is an operation of DynamoDB, not code of the repository;
    it is modelled after its documented behaviour, on the key schema and the
    indexes that [ensure_table] declares.  The items of an index are the
    stored items that carry both of its key attributes; a query walks the
    items of one partition in the order of the range key (the primary key
    breaks ties), forwards or backwards, starting after [ExclusiveStartKey];
    it stops after [Limit] items or when the page is full, and then returns
    the key of the last item as [LastEvaluatedKey].  A key condition must
    name the key attributes of the index, and the lower bound of a
    [between] must not be above its upper bound: otherwise the store
    rejects the query with a ValidationException.  [page_cap] is the
    number of items that fit into one page; the statements below hold for
    every page size. *)

Inductive KeyCondition :=
  | KeyEq (attr value : string)
  | KeyEqBetween (attr value range lo hi : string).

Record QueryArgs := {
  IndexName : option string;
  KeyConditionExpression : KeyCondition;
  ScanIndexForward : bool;
  Limit : option Z;
  ExclusiveStartKey : option Item
}.

Record QueryResponse := {
  Items : list Item;
  LastEvaluatedKey : option Item
}.

Fixpoint assoc {A} (k : string) (l : list (string * A)) : option A :=
  match l with
  | [] => None
  | (k', v) :: rest => if decide (k' = k) then Some v else assoc k rest
  end.

Definition find_index (name : option string) : Result IndexSchema :=
  match name with
  | None => Ok {| index_keys := table_keys; index_projection := None |}
  | Some n =>
      match assoc n GlobalSecondaryIndexes with
      | Some ix => Ok ix
      | None => Raise (Exc "ValidationException")
      end
  end.

(** The position of an item in an index: range key, then primary key. *)
Abbreviation OrderKey := (string * (string * string))%type.

Definition lex (c1 c2 : comparison) : comparison :=
  match c1 with Eq => c2 | _ => c1 end.

Definition okey_compare (a b : OrderKey) : comparison :=
  lex (String.compare a.1 b.1)
      (lex (String.compare a.2.1 b.2.1) (String.compare a.2.2 b.2.2)).

(** the order a query walks in: ascending when [ScanIndexForward] *)
Definition scan_compare (forward : bool) (a b : OrderKey) : comparison :=
  if forward then okey_compare a b else okey_compare b a.

Definition okey (ks : KeySchema) (it : Item) : option OrderKey :=
  rk ← str_attr (range_attr ks) it;
  pk ← str_attr "PK" it;
  sk ← str_attr "SK" it;
  Some (rk, (pk, sk)).

(** the item stored under a primary key, as a read returns it *)
Definition stored_item (kv : (string * string) * Item) : Item :=
  <["PK" := VStr kv.1.1]> (<["SK" := VStr kv.1.2]> kv.2).

Definition stored_items (table : Table) : list Item :=
  stored_item <$> map_to_list table.

(** the condition names the index's own key attributes, and the bounds of
    a [between] are in order *)
Definition condition_ok (ks : KeySchema) (c : KeyCondition) : bool :=
  match c with
  | KeyEq a _ => bool_decide (a = hash_attr ks)
  | KeyEqBetween a _ r lo hi =>
      bool_decide (a = hash_attr ks) && bool_decide (r = range_attr ks)
      && String.leb lo hi
  end.

Definition condition_value (c : KeyCondition) : string :=
  match c with KeyEq _ v => v | KeyEqBetween _ v _ _ _ => v end.

(** [between(lo, hi)] is inclusive at both ends; bounds that are out of
    order do not reach this test, [condition_ok] refuses them *)
Definition range_ok (c : KeyCondition) (rk : string) : bool :=
  match c with
  | KeyEq _ _ => true
  | KeyEqBetween _ _ _ lo hi => String.leb lo rk && String.leb rk hi
  end.

(** an item of the index that satisfies the key condition, with its position *)
Definition selected (ks : KeySchema) (c : KeyCondition) (it : Item)
  : option (OrderKey * Item) :=
  h ← str_attr (hash_attr ks) it;
  k ← okey ks it;
  if bool_decide (h = condition_value c) && range_ok c k.1 then Some (k, it) else None.

Section Sort.
Context {A : Type} (cmp : OrderKey -> OrderKey -> comparison).

Fixpoint insert_by (x : OrderKey * A) (l : list (OrderKey * A)) : list (OrderKey * A) :=
  match l with
  | [] => [x]
  | y :: l' => if cmp x.1 y.1 is Gt then y :: insert_by x l' else x :: y :: l'
  end.

Fixpoint sort_by (l : list (OrderKey * A)) : list (OrderKey * A) :=
  match l with
  | [] => []
  | x :: l' => insert_by x (sort_by l')
  end.

(** the part of a walk that lies after position [k] *)
Definition after (k : OrderKey) (l : list (OrderKey * A)) : list (OrderKey * A) :=
  List.filter (fun x => if cmp k x.1 is Lt then true else false) l.
End Sort.

(** the key attributes of an item: the shape of [LastEvaluatedKey] *)
Definition key_attrs (ks : KeySchema) : list string :=
  [hash_attr ks; range_attr ks; "PK"; "SK"].

Definition key_of (ks : KeySchema) (it : Item) : Item :=
  filter (fun kv => kv.1 ∈ key_attrs ks) it.

(** what an index returns of an item *)
Definition project_item (ix : IndexSchema) (it : Item) : Item :=
  match index_projection ix with
  | None => it
  | Some attrs => filter (fun kv => kv.1 ∈ attrs ++ key_attrs (index_keys ix)) it
  end.

Definition page_size (page_cap : positive) (limit : option Z) : nat :=
  match limit with
  | Some n => Nat.min (Z.to_nat n) (Pos.to_nat page_cap)
  | None => Pos.to_nat page_cap
  end.

Definition ddb_query (page_cap : positive) (table : Table) (args : QueryArgs)
  : Result QueryResponse :=
  ix ← find_index (IndexName args);
  let ks := index_keys ix in
  let c := KeyConditionExpression args in
  if negb (condition_ok ks c) then Raise (Exc "ValidationException")
  else if from_option (fun n => n <? 1)%Z false (Limit args)
  then Raise (Exc "ParamValidationError")
  else
    let cmp := scan_compare (ScanIndexForward args) in
    let walk := sort_by cmp (omap (selected ks c) (stored_items table)) in
    rest ← match ExclusiveStartKey args with
           | None => Ok walk
           | Some start =>
               match okey ks start with
               | Some k => Ok (after cmp k walk)
               | None => Raise (Exc "ValidationException")
               end
           end;
    let n := page_size page_cap (Limit args) in
    let page := take n rest in
    Ok {| Items := project_item ix <$> page.*2;
          LastEvaluatedKey :=
            if length page =? n then key_of ks <$> last page.*2 else None |}.

(** ** Query executors ([query_papers.py], lines 22-99; the same five
    functions are in [api_server.py], lines 20-81) *)

(** [not d] for a dict or [None] *)
Definition dict_truthy (d : option Item) : bool :=
  match d with Some m => negb (bool_decide (m = ∅)) | None => false end.

Section Executors.
(** [_table(table_name).query], resp. the global [table.query] *)
Variable query : QueryArgs -> Result QueryResponse.

Definition query_recent_in_category (category : string) (limit : Z)
  : Result (list Item) :=
  response ← query {| IndexName := None;
                      KeyConditionExpression := KeyEq "PK" ("CATEGORY#" +:+ category);
                      ScanIndexForward := false;
                      Limit := Some limit;
                      ExclusiveStartKey := None |};
  Ok (Items response).

(** the [while True] loop of the two paginated executors; [None] when
    [fuel] iterations did not reach the [break] *)
Fixpoint query_loop (fuel : nat) (kwargs : QueryArgs) (items : list Item)
  : option (Result (list Item)) :=
  match fuel with
  | O => None
  | S fuel' =>
      match query kwargs with
      | Raise e => Some (Raise e)
      | Ok response =>
          let items' := items ++ Items response in
          let lek := LastEvaluatedKey response in
          if negb (dict_truthy lek) then Some (Ok items')
          else query_loop fuel'
                 {| IndexName := IndexName kwargs;
                    KeyConditionExpression := KeyConditionExpression kwargs;
                    ScanIndexForward := ScanIndexForward kwargs;
                    Limit := Limit kwargs;
                    ExclusiveStartKey := lek |}
                 items'
      end
  end.

Definition query_papers_by_author (fuel : nat) (author_name : string)
  : option (Result (list Item)) :=
  query_loop fuel
    {| IndexName := Some "AuthorIndex";
       KeyConditionExpression := KeyEq "GSI1PK" ("AUTHOR#" +:+ author_name);
       ScanIndexForward := false;
       Limit := None;
       ExclusiveStartKey := None |} [].

Definition get_paper_by_id (arxiv_id : string) : Result (option Item) :=
  response ← query {| IndexName := Some "PaperIdIndex";
                      KeyConditionExpression := KeyEq "GSI3PK" ("PAPER#" +:+ arxiv_id);
                      ScanIndexForward := true;
                      Limit := None;
                      ExclusiveStartKey := None |};
  Ok (head (Items response)).

Definition query_papers_in_date_range (fuel : nat) (category start_date end_date : string)
  : option (Result (list Item)) :=
  query_loop fuel
    {| IndexName := None;
       KeyConditionExpression :=
         KeyEqBetween "PK" ("CATEGORY#" +:+ category)
                      "SK" (start_date +:+ "#") (end_date +:+ "#zzzzzzz");
       ScanIndexForward := true;
       Limit := None;
       ExclusiveStartKey := None |} [].

Definition query_papers_by_keyword (keyword : string) (limit : Z)
  : Result (list Item) :=
  response ← query {| IndexName := Some "KeywordIndex";
                      KeyConditionExpression := KeyEq "GSI2PK" ("KW#" +:+ Str.lower keyword);
                      ScanIndexForward := false;
                      Limit := Some limit;
                      ExclusiveStartKey := None |};
  Ok (Items response).
End Executors.

(** ** Read API ([api_server.py], lines 84-198) *)

(** A GET request after [urlparse] and [parse_qs]: the path, and the query
    string as a dict from a name to the list of its values.  [parse_qs]
    lists a name only with at least one value, so a list of values is its
    first value and the rest. *)
Record Request := {
  path : string;
  qs : list (string * (string * list string))
}.

(** the JSON bodies [do_GET] sends *)
Inductive Payload :=
  | ErrorBody (error : string)
  | RecentBody (category : string) (papers : list Item) (count : nat)
  | AuthorBody (author_name : string) (papers : list Item) (count : nat)
  | KeywordBody (keyword : string) (papers : list Item) (count : nat)
  | SearchBody (category start_date end_date : string) (papers : list Item) (count : nat)
  | ItemBody (item : Item).

Inductive LogValue := LStr (s : string) | LInt (n : Z).

(** what one request produces: the status and body sent, and the [extra]
    fields of the log line *)
Record Reply := {
  status : nat;
  payload : Payload;
  log_extra : list (string * LogValue)
}.

Definition truthy_str (o : option string) : option string :=
  match o with
  | Some s => if Str.truthy s then Some s else None
  | None => None
  end.

(** [qs.get(name, [None])[0]] *)
Definition qs_first (qs : list (string * (string * list string))) (name : string)
  : option string :=
  fst <$> assoc name qs.

(** [path.split(prefix, 1)[1]] for a path that starts with [prefix] *)
Definition after_prefix (prefix path : string) : string :=
  Str.drop (String.length prefix) path.

Section Handler.
(** the global [table.query] *)
Variable query : QueryArgs -> Result QueryResponse.
(** [urllib.parse.unquote] *)
Variable unquote : string -> string.
(** [int(s)]; [None] is ValueError *)
Variable int : string -> option Z.

(** [int(limit) if limit is not None else 20] *)
Definition parse_limit (limit : option string) : option Z :=
  match limit with
  | Some l => int l
  | None => Some 20%Z
  end.

(** [self._send(status, payload)] followed by [self.log_request_stdout] *)
Definition send (status : nat) (payload : Payload) (extra : list (string * LogValue))
  : Reply :=
  {| status := status; payload := payload; log_extra := extra |}.

Definition lift {A} (m : option (Result A)) (k : A -> Result Reply)
  : option (Result Reply) :=
  match m with
  | None => None
  | Some r => Some (r ≫= k)
  end.

(** the body of the [try] in [do_GET] *)
Definition try_GET (fuel : nat) (req : Request) : option (Result Reply) :=
  let path := path req in
  let qs := qs req in
  if bool_decide (path = "/papers/recent") then
    let category := qs_first qs "category" in
    let limit := qs_first qs "limit" in
    match truthy_str category with
    | None => Some (Ok (send 400 (ErrorBody "missing category") []))
    | Some category =>
        match parse_limit limit with
        | None => Some (Ok (send 400 (ErrorBody "invalid limit") []))
        | Some limit =>
            Some (
              items ← query_recent_in_category query category limit;
              Ok (send 200 (RecentBody category items (length items))
                       [("category", LStr category); ("limit", LInt limit)]))
        end
    end
  else if Str.startswith "/papers/author/" path then
    let author_name := unquote (after_prefix "/papers/author/" path) in
    if negb (Str.truthy author_name) then
      Some (Ok (send 400 (ErrorBody "missing author_name") []))
    else
      lift (query_papers_by_author query fuel author_name) (fun items =>
        Ok (send 200 (AuthorBody author_name items (length items))
                 [("author_name", LStr author_name)]))
  else if Str.startswith "/papers/keyword/" path then
    let keyword := unquote (after_prefix "/papers/keyword/" path) in
    let limit := qs_first qs "limit" in
    match parse_limit limit with
    | None => Some (Ok (send 400 (ErrorBody "invalid limit") []))
    | Some limit =>
        if negb (Str.truthy keyword) then
          Some (Ok (send 400 (ErrorBody "missing keyword") []))
        else
          Some (
            items ← query_papers_by_keyword query keyword limit;
            Ok (send 200 (KeywordBody keyword items (length items))
                     [("keyword", LStr keyword); ("limit", LInt limit)]))
    end
  else if Str.startswith "/papers/search" path then
    let category := qs_first qs "category" in
    let start_date := qs_first qs "start" in
    let end_date := qs_first qs "end" in
    match truthy_str category, truthy_str start_date, truthy_str end_date with
    | Some category, Some start_date, Some end_date =>
        lift (query_papers_in_date_range query fuel category start_date end_date)
          (fun items =>
            Ok (send 200 (SearchBody category start_date end_date items (length items))
                     [("category", LStr category); ("start", LStr start_date);
                      ("end", LStr end_date)]))
    | _, _, _ => Some (Ok (send 400 (ErrorBody "missing category/start/end") []))
    end
  else if Str.startswith "/papers/" path then
    let arxiv_id := after_prefix "/papers/" path in
    if negb (Str.truthy arxiv_id) then
      Some (Ok (send 400 (ErrorBody "missing arxiv_id") []))
    else
      let arxiv_id := unquote arxiv_id in
      Some (
        item ← get_paper_by_id query arxiv_id;
        if negb (dict_truthy item) then
          Ok (send 404 (ErrorBody "not found") [("arxiv_id", LStr arxiv_id)])
        else
          Ok (send 200 (ItemBody (default ∅ item)) [("arxiv_id", LStr arxiv_id)]))
  else
    Some (Ok (send 404 (ErrorBody "not found") [])).

(** [Handler.do_GET]: the [except Exception] clause answers 500 and puts
    the exception text into the log line only. *)
Definition do_GET (fuel : nat) (req : Request) : option Reply :=
  match try_GET fuel req with
  | None => None
  | Some (Ok r) => Some r
  | Some (Raise (Exc detail)) =>
      Some (send 500 (ErrorBody "server error") [("exception", LStr detail)])
  end.
End Handler.

(** ** Command line ([query_papers.py], lines 101-177) *)

(** the sub-command with its arguments, as [argparse] hands them over;
    [--limit] is an integer, 20 by default *)
Inductive Command :=
  | CmdRecent (category : string) (limit : Z)
  | CmdAuthor (author_name : string)
  | CmdGet (arxiv_id : string)
  | CmdDaterange (category start_date end_date : string)
  | CmdKeyword (keyword : string) (limit : Z).

(** [args]: [table] is the option [--table], else the environment
    variable [DDB_TABLE], else [None] *)
Record CliArgs := {
  cmd : Command;
  table : option string
}.

(** the object [_json_out] prints, without its [execution_time_ms] *)
Record Output := {
  query_type : string;
  parameters : list (string * LogValue);
  results : list Item;
  count : nat
}.

(** how a run ends: the printed object, [SystemExit], or an exception of
    the store, which [main] does not catch *)
Inductive Exit :=
  | Printed (out : Output)
  | SystemExit (message : string)
  | Uncaught (e : Exception).

Definition printed {A} (r : Result A) (out : A -> Output) : Exit :=
  match r with
  | Ok a => Printed (out a)
  | Raise e => Uncaught e
  end.

Section Cli.
(** [_table(table_name).query] *)
Variable tables : string -> QueryArgs -> Result QueryResponse.

Definition cli_main (fuel : nat) (args : CliArgs) : option Exit :=
  match truthy_str (table args) with
  | None =>
      Some (SystemExit "Missing table name. Use --table TABLE or set env DDB_TABLE.")
  | Some table_name =>
      match cmd args with
      | CmdRecent category limit =>
          Some (printed (query_recent_in_category (tables table_name) category limit)
                  (fun results =>
                     {| query_type := "recent_in_category";
                        parameters := [("category", LStr category); ("limit", LInt limit)];
                        results := results;
                        count := length results |}))
      | CmdAuthor author_name =>
          r ← query_papers_by_author (tables table_name) fuel author_name;
          Some (printed r
                  (fun results =>
                     {| query_type := "papers_by_author";
                        parameters := [("author_name", LStr author_name)];
                        results := results;
                        count := length results |}))
      | CmdGet arxiv_id =>
          Some (printed (get_paper_by_id (tables table_name) arxiv_id)
                  (fun result =>
                     {| query_type := "get_paper_by_id";
                        parameters := [("arxiv_id", LStr arxiv_id)];
                        results := if dict_truthy result then [default ∅ result] else [];
                        count := if dict_truthy result then 1 else 0 |}))
      | CmdDaterange category start_date end_date =>
          r ← query_papers_in_date_range (tables table_name) fuel
                category start_date end_date;
          Some (printed r
                  (fun results =>
                     {| query_type := "papers_in_date_range";
                        parameters := [("category", LStr category);
                                       ("start_date", LStr start_date);
                                       ("end_date", LStr end_date)];
                        results := results;
                        count := length results |}))
      | CmdKeyword keyword limit =>
          Some (printed (query_papers_by_keyword (tables table_name) keyword limit)
                  (fun results =>
                     {| query_type := "papers_by_keyword";
                        parameters := [("keyword", LStr keyword); ("limit", LInt limit)];
                        results := results;
                        count := length results |}))
      end
  end.
End Cli.

(** ** The log line ([api_server.py], lines 85-95) *)

(** [info.update(extra)] *)
Definition update (info : gmap string LogValue) (extra : list (string * LogValue))
  : gmap string LogValue :=
  fold_left (fun m kv => <[kv.1 := kv.2]> m) extra info.

(** the object [Handler.log_request_stdout] prints; [command] and
    [raw_path] are the method and the request target of the request line,
    [dur_ms] the measured duration *)
Definition log_request_stdout (command raw_path : string) (status : nat) (dur_ms : Z)
    (extra : list (string * LogValue)) : gmap string LogValue :=
  let info : gmap string LogValue :=
    <["method" := LStr command]>
      (<["path" := LStr raw_path]>
         (<["status" := LInt (Z.of_nat status)]>
            (<["duration_ms" := LInt dur_ms]> ∅))) in
  if bool_decide (extra = []) then info else update info extra.

(** ** Table creation ([load_data.py], lines 31-86)

    [describe_table], [create_table] and the waiter are operations of the
    service; they are modelled on the tables of an account.  A call fails
    with [ClientError] and an error code, or with another exception (no
    connection, no credentials); [outage] is the failure, if any, with
    which the service answers every call. *)

Inductive ServiceError :=
  | ClientError (code : string)
  | OtherError (detail : string).

Inductive Outcome (A : Type) := Returned (a : A) | Raised (e : ServiceError).
Arguments Returned {A} a.
Arguments Raised {A} e.

(** the parameters of [create_table] *)
Record TableDescription := {
  attribute_definitions : list (string * string);
  key_schema : KeySchema;
  billing_mode : string;
  global_secondary_indexes : list (string * IndexSchema)
}.

Record Account := {
  account_tables : gmap string TableDescription;
  outage : option ServiceError
}.

Definition describe_table (acc : Account) (table_name : string)
  : Outcome TableDescription :=
  match outage acc with
  | Some e => Raised e
  | None =>
      match account_tables acc !! table_name with
      | Some d => Returned d
      | None => Raised (ClientError "ResourceNotFoundException")
      end
  end.

Definition create_table (acc : Account) (table_name : string) (d : TableDescription)
  : Outcome Account :=
  match outage acc with
  | Some e => Raised e
  | None =>
      match account_tables acc !! table_name with
      | Some _ => Raised (ClientError "ResourceInUseException")
      | None =>
          Returned {| account_tables := <[table_name := d]> (account_tables acc);
                      outage := None |}
      end
  end.

(** [waiter.wait(TableName=table_name)] returns once the table exists *)
Definition wait_table_exists (acc : Account) (table_name : string) : Outcome unit :=
  match describe_table acc table_name with
  | Returned _ => Returned tt
  | Raised e => Raised e
  end.

(** the [params] of [ensure_table] without the table name *)
Definition params : TableDescription :=
  {| attribute_definitions :=
       [("PK", "S"); ("SK", "S"); ("GSI1PK", "S"); ("GSI1SK", "S");
        ("GSI2PK", "S"); ("GSI2SK", "S"); ("GSI3PK", "S"); ("GSI3SK", "S")];
     key_schema := table_keys;
     billing_mode := "PAY_PER_REQUEST";
     global_secondary_indexes := GlobalSecondaryIndexes |}.

(** [ensure_table(client, resource, table_name)]: the account after the
    call and the name of the table that [resource.Table] denotes *)
Definition ensure_table (acc : Account) (table_name : string)
  : Outcome (Account * string) :=
  match describe_table acc table_name with
  | Returned _ => Returned (acc, table_name)
  | Raised (ClientError code) =>
      if bool_decide (code ≠ "ResourceNotFoundException")
      then Raised (ClientError code)
      else
        match create_table acc table_name params with
        | Raised e => Raised e
        | Returned acc' =>
            match wait_table_exists acc' table_name with
            | Raised e => Raised e
            | Returned _ => Returned (acc', table_name)
            end
        end
  | Raised e => Raised e
  end.

(** ** Vocabulary of the statements *)

(** *** Keyword extractor *)

(** how often [w] occurs in a token sequence *)
Fixpoint occurrences (w : string) (l : list string) : nat :=
  match l with
  | [] => 0
  | x :: l' => (if decide (x = w) then 1 else 0) + occurrences w l'
  end.

(** the position at which [w] is first seen ([length l] when it never is) *)
Fixpoint first_index (w : string) (l : list string) : nat :=
  match l with
  | [] => 0
  | x :: l' => if decide (x = w) then 0 else S (first_index w l')
  end.

(** the order of [most_common]: the larger count first, and among equal
    counts the entry whose word has the smaller position [pos] *)
Definition ranks_before (pos : string -> nat) (a b : string * nat) : Prop :=
  b.2 < a.2 ∨ (a.2 = b.2 ∧ pos a.1 < pos b.1).

(** all characters are in [a-z] *)
Definition lowercase_alpha (w : string) : Prop :=
  Str.forallb Str.is_lower_az w = true.

(** *** Projector and store writer *)

(** the AuthorItems among projected items, by their type tag *)
Definition is_author_item (it : Item) : Prop :=
  it !! "item_type" = Some (VStr "AUTHOR_ITEM").

(** the primary key pair of an item *)
Definition item_key (it : Item) : string * string :=
  (default "" (str_attr "PK" it), default "" (str_attr "SK" it)).

(** the last item of a sequence of writes that goes to key [k] *)
Fixpoint last_write (k : string * string) (items : list Item) : option Item :=
  match items with
  | [] => None
  | it :: rest =>
      match last_write k rest with
      | Some it' => Some it'
      | None => if decide (item_key it = k) then Some it else None
      end
  end.

(** the table after a sequence of accepted writes *)
Definition write_all (table : Table) (items : list Item) : Table :=
  fold_left (fun t it => <[item_key it := it]> t) items table.

(** a table that holds only items the loader derived from [papers], each
    under its own key *)
Definition loaded_from (papers : list Paper) (table : Table) : Prop :=
  ∀ k it, table !! k = Some it ->
    k = item_key it ∧ ∃ p, p ∈ papers ∧ it ∈ project_paper p.

(** *** Queries *)

(** A three-way comparison that is a strict total order. *)
Class CmpOrder {K : Type} (cmp : K -> K -> comparison) : Prop := {
  cmp_eq a b : cmp a b = Eq -> a = b;
  cmp_antisym a b : cmp a b = CompOpp (cmp b a);
  cmp_trans a b c : cmp a b = Lt -> cmp b c = Lt -> cmp a c = Lt
}.

(** strictly ascending index positions *)
Definition key_lt {A} (cmp : OrderKey -> OrderKey -> comparison)
    (x y : OrderKey * A) : Prop :=
  cmp x.1 y.1 = Lt.

(** the items of one partition that a query walks, in walking order, each
    with its position *)
Definition walk (table : Table) (ks : KeySchema) (args : QueryArgs)
  : list (OrderKey * Item) :=
  sort_by (scan_compare (ScanIndexForward args))
    (omap (selected ks (KeyConditionExpression args)) (stored_items table)).

(** the arguments of the next page's query *)
Definition with_start (args : QueryArgs) (start : option Item) : QueryArgs :=
  {| IndexName := IndexName args;
     KeyConditionExpression := KeyConditionExpression args;
     ScanIndexForward := ScanIndexForward args;
     Limit := Limit args;
     ExclusiveStartKey := start |}.

(** the start key after the items [done] have been returned *)
Definition start_of (ks : KeySchema) (done : list (OrderKey * Item)) : option Item :=
  key_of ks <$> last done.*2.

(** the primary sort key of an item *)
Definition sk_of (it : Item) : string := default "" (str_attr "SK" it).

(** the query of [query_papers_in_date_range] *)
Definition date_range_args (category start_date end_date : string) : QueryArgs :=
  {| IndexName := None;
     KeyConditionExpression :=
       KeyEqBetween "PK" ("CATEGORY#" +:+ category)
                    "SK" (start_date +:+ "#") (end_date +:+ "#zzzzzzz");
     ScanIndexForward := true;
     Limit := None;
     ExclusiveStartKey := None |}.

(** the query of [get_paper_by_id] *)
Definition paper_id_args (arxiv_id : string) : QueryArgs :=
  {| IndexName := Some "PaperIdIndex";
     KeyConditionExpression := KeyEq "GSI3PK" ("PAPER#" +:+ arxiv_id);
     ScanIndexForward := true;
     Limit := None;
     ExclusiveStartKey := None |}.

Definition paper_id_index : IndexSchema :=
  {| index_keys := {| hash_attr := "GSI3PK"; range_attr := "GSI3SK" |};
     index_projection := None |}.

(** the query of [query_papers_by_keyword] *)
Definition keyword_args (keyword : string) (limit : Z) : QueryArgs :=
  {| IndexName := Some "KeywordIndex";
     KeyConditionExpression := KeyEq "GSI2PK" ("KW#" +:+ Str.lower keyword);
     ScanIndexForward := false;
     Limit := Some limit;
     ExclusiveStartKey := None |}.

Definition keyword_index : IndexSchema :=
  {| index_keys := {| hash_attr := "GSI2PK"; range_attr := "GSI2SK" |};
     index_projection := Some ["arxiv_id"; "title"; "categories"; "published"] |}.

(** *** Read API *)

(** the routes of the read API, in the order [do_GET] tests them *)
Inductive Route := RecentRoute | AuthorRoute | KeywordRoute | SearchRoute
                 | PaperRoute | NoRoute.

Definition route_of (path : string) : Route :=
  if bool_decide (path = "/papers/recent") then RecentRoute
  else if Str.startswith "/papers/author/" path then AuthorRoute
  else if Str.startswith "/papers/keyword/" path then KeywordRoute
  else if Str.startswith "/papers/search" path then SearchRoute
  else if Str.startswith "/papers/" path then PaperRoute
  else NoRoute.

(** a store that fails whenever it is reached *)
Definition failing_store (detail : string) : QueryArgs -> Result QueryResponse :=
  fun _ => Raise (Exc detail).

(** a decimal literal of digits, as a stand-in for [int] in examples *)
Fixpoint digits_value (acc : Z) (s : string) : option Z :=
  match s with
  | EmptyString => Some acc
  | String c s' =>
      if Str.in_range 48 57 c
      then digits_value (10 * acc + Z.of_N (Str.code c - 48)) s'
      else None
  end.

Definition decimal_int (s : string) : option Z :=
  if Str.truthy s then digits_value 0 s else None.

(** *** Sample data *)

(** a paper that lists the same author twice *)
Definition paper_repeated_author : Paper :=
  {| arxiv_id := Some "2401.00001";
     title := Some "On repetition";
     authors := Some ["Ann Lee"; "Ann Lee"];
     abstract := None;
     categories := Some ["cs.LG"];
     published := Some "2024-01-31T10:00:00Z" |}.

(** a paper without publication timestamp *)
Definition paper_undated : Paper :=
  {| arxiv_id := Some "2401.00003";
     title := None;
     authors := Some ["Cy Young"];
     abstract := Some "network Network NETWORK";
     categories := Some ["cs.LG"];
     published := None |}.

(** a corpus around the end of January 2024, and the table the loader
    makes of it *)
Definition paper_jan31 : Paper :=
  {| arxiv_id := Some "2401.17001";
     title := Some "Last of January";
     authors := Some ["Ann Lee"; "ann lee"];
     abstract := Some "Graph neural networks for graph learning";
     categories := Some ["cs.LG"; "cs.AI"];
     published := Some "2024-01-31T23:59:59Z" |}.

Definition paper_feb01 : Paper :=
  {| arxiv_id := Some "2402.00002";
     title := Some "First of February";
     authors := Some ["Ann Lee"];
     abstract := Some "A Network of networks";
     categories := Some ["cs.LG"];
     published := Some "2024-02-01T00:00:00Z" |}.

Definition january_table : Table :=
  write_all ∅ (all_items (project_all [paper_jan31; paper_feb01; paper_undated])).

(** a search whose dates are no dates *)
Definition search_without_dates : Request :=
  {| path := "/papers/search";
     qs := [("category", ("cs.LG", [])); ("start", ("today", []));
            ("end", ("tomorrow", []))] |}.

(** *** Vocabulary of the further properties *)

(** the CategoryItems among projected items, by their type tag *)
Definition is_category_item (it : Item) : Prop :=
  it !! "item_type" = Some (VStr "CATEGORY_ITEM").

(** the sum of [f] over a list *)
Fixpoint sum_of {A} (f : A -> nat) (l : list A) : nat :=
  match l with
  | [] => 0
  | x :: l' => f x + sum_of f l'
  end.


(** the query of [query_recent_in_category] *)
Definition recent_args (category : string) (limit : Z) : QueryArgs :=
  {| IndexName := None;
     KeyConditionExpression := KeyEq "PK" ("CATEGORY#" +:+ category);
     ScanIndexForward := false;
     Limit := Some limit;
     ExclusiveStartKey := None |}.

(** the query of [query_papers_by_author] *)
Definition author_args (author_name : string) : QueryArgs :=
  {| IndexName := Some "AuthorIndex";
     KeyConditionExpression := KeyEq "GSI1PK" ("AUTHOR#" +:+ author_name);
     ScanIndexForward := false;
     Limit := None;
     ExclusiveStartKey := None |}.

Definition author_index : IndexSchema :=
  {| index_keys := {| hash_attr := "GSI1PK"; range_attr := "GSI1SK" |};
     index_projection := Some ["arxiv_id"; "title"; "categories"; "published"] |}.

(** the sort key of an item in the author index *)
Definition gsi1sk_of (it : Item) : string := default "" (str_attr "GSI1SK" it).

(** the table the loader makes of a corpus, starting from an empty table *)
Definition loaded_table (papers : list Paper) : Table :=
  write_all ∅ (all_items (project_all papers)).

(** the [count] field of a list body is the number of its papers *)
Definition counted (p : Payload) : Prop :=
  match p with
  | RecentBody _ papers count
  | AuthorBody _ papers count
  | KeywordBody _ papers count
  | SearchBody _ _ _ papers count => count = length papers
  | ErrorBody _ | ItemBody _ => True
  end.

Definition is_error_body (p : Payload) : Prop :=
  match p with ErrorBody _ => True | _ => False end.

(** the store accepts the query of a command: a limit is at least 1, and
    the bounds of a date range are in order *)
Definition accepted (c : Command) : bool :=
  match c with
  | CmdRecent _ limit | CmdKeyword _ limit => (1 <=? limit)%Z
  | CmdDaterange _ start_date end_date =>
      String.leb (start_date +:+ "#") (end_date +:+ "#zzzzzzz")
  | CmdAuthor _ | CmdGet _ => true
  end.

(** the exception with which the store refuses the query otherwise *)
Definition refusal (c : Command) : Exception :=
  match c with
  | CmdDaterange _ _ _ => Exc "ValidationException"
  | _ => Exc "ParamValidationError"
  end.

Definition is_printed (e : Exit) : Prop :=
  match e with Printed _ => True | _ => False end.

(** the names of the [extra] fields that [do_GET] logs, per kind of reply *)
Definition extra_names : list (list string) :=
  [ []; ["category"; "limit"]; ["author_name"]; ["keyword"; "limit"];
    ["category"; "start"; "end"]; ["arxiv_id"]; ["exception"] ].

(** the key attributes of a table description: those of the table and of
    its indexes *)
Definition key_attributes (d : TableDescription) : list string :=
  [hash_attr (key_schema d); range_attr (key_schema d)]
  ++ concat ((fun ix => [hash_attr (index_keys ix.2); range_attr (index_keys ix.2)])
               <$> global_secondary_indexes d).

(** a decoder of the escapes [%XX], as a stand-in for [unquote] in examples *)
Definition hex_digit (c : ascii) : option N :=
  if Str.in_range 48 57 c then Some (Str.code c - 48)%N
  else if Str.in_range 97 102 c then Some (Str.code c - 87)%N
  else if Str.in_range 65 70 c then Some (Str.code c - 55)%N
  else None.

Fixpoint percent_decode (s : string) : string :=
  match s with
  | EmptyString => EmptyString
  | String c rest =>
      let keep := String c (percent_decode rest) in
      if Ascii.eqb c "%" then
        match rest with
        | String a (String b s') =>
            match hex_digit a, hex_digit b with
            | Some x, Some y =>
                String (Ascii.ascii_of_N (16 * x + y)) (percent_decode s')
            | _, _ => keep
            end
        | _ => keep
        end
      else keep
  end.

(** a paper whose identifier is the name of a route *)
Definition paper_recent : Paper :=
  {| arxiv_id := Some "recent";
     title := Some "A recent paper";
     authors := Some ["Ann Lee"];
     abstract := None;
     categories := Some ["cs.LG"];
     published := Some "2024-03-01T00:00:00Z" |}.

(** * Proofs *)

(** ** Strings *)

Lemma lower_char_not_upper c : Str.is_upper_AZ (Str.lower_char c) = false.
Proof. destruct c as [[] [] [] [] [] [] [] []]; reflexivity. Qed.

Lemma letter_of_lower c :
  Str.is_letter (Str.lower_char c) = true -> Str.is_lower_az (Str.lower_char c) = true.
Proof.
  unfold Str.is_letter. rewrite lower_char_not_upper, orb_false_r. auto.
Qed.

Lemma forallb_snoc P s c :
  Str.forallb P (Str.snoc s c) = Str.forallb P s && P c.
Proof.
  unfold Str.snoc. induction s as [|a s IH].
  - change ("" +:+ String c "") with (String c ""). cbn. now rewrite andb_true_r.
  - change (String a s +:+ String c "") with (String a (s +:+ String c "")).
    cbn. rewrite IH. now rewrite andb_assoc.
Qed.

(** ** Keyword extractor *)

Lemma flush_forallb P cur w :
  Str.forallb P cur = true -> w ∈ flush cur -> Str.forallb P w = true.
Proof.
  unfold flush. destruct (Str.truthy cur); intros H Hin.
  - apply list_elem_of_singleton in Hin. now subst.
  - now apply elem_of_nil in Hin.
Qed.

(** Every run found in a lower-cased text consists of lowercase letters. *)
Lemma findall_letters_lower s : forall cur w,
  Str.forallb Str.is_lower_az cur = true ->
  w ∈ findall_letters cur (Str.lower s) ->
  Str.forallb Str.is_lower_az w = true.
Proof.
  induction s as [|c s IH]; intros cur w Hcur Hin; cbn in Hin.
  - eauto using flush_forallb.
  - destruct (Str.is_letter (Str.lower_char c)) eqn:Hc.
    + apply (IH (Str.snoc cur (Str.lower_char c))); [|done].
      rewrite forallb_snoc, Hcur. now apply letter_of_lower.
    + apply elem_of_app in Hin as [Hin|Hin].
      * eauto using flush_forallb.
      * now apply (IH "").
Qed.

Lemma tokenize_spec text w :
  w ∈ tokenize text ->
  lowercase_alpha w ∧ 2 < String.length w ∧ w ∉ STOPWORDS.
Proof.
  unfold tokenize. intros [[Hs Hl] Hin]%list_elem_of_filter.
  split_and!; [|done..].
  eapply findall_letters_lower; [|exact Hin]. reflexivity.
Qed.


(** *** The counter *)

Lemma occurrences_snoc x l w :
  occurrences x (l ++ [w]) = occurrences x l + (if decide (w = x) then 1 else 0).
Proof. induction l as [|y l IH]; cbn; [|rewrite IH]; lia. Qed.

Lemma occurrences_notin x l : x ∉ l -> occurrences x l = 0.
Proof.
  induction l as [|y l IH]; cbn; [done|].
  intros [Hne Hl]%not_elem_of_cons. rewrite decide_False by done. now rewrite IH.
Qed.

Lemma first_index_lt w l : w ∈ l -> first_index w l < length l.
Proof.
  induction l as [|y l IH]; cbn; [intros []%elem_of_nil|].
  intros Hin. destruct (decide (y = w)); [lia|].
  apply elem_of_cons in Hin as [->|Hin]; [done|]. specialize (IH Hin). lia.
Qed.

Lemma first_index_app_l w l l2 : w ∈ l -> first_index w (l ++ l2) = first_index w l.
Proof.
  induction l as [|y l IH]; cbn; [intros []%elem_of_nil|].
  intros Hin. destruct (decide (y = w)); [done|].
  apply elem_of_cons in Hin as [->|Hin]; [done|]. now rewrite IH.
Qed.

Lemma first_index_fresh w l : w ∉ l -> first_index w (l ++ [w]) = length l.
Proof.
  induction l as [|y l IH]; cbn.
  - intros _. now rewrite decide_True.
  - intros [Hne Hl]%not_elem_of_cons. rewrite decide_False by done. now rewrite IH.
Qed.

Lemma Counter_snoc l w : Counter (l ++ [w]) = counter_incr w (Counter l).
Proof. unfold Counter. now rewrite fold_left_app. Qed.

Lemma counter_incr_keys w (cnt : list (string * nat)) :
  (counter_incr w cnt).*1 = if decide (w ∈ cnt.*1) then cnt.*1 else cnt.*1 ++ [w].
Proof.
  induction cnt as [|[w' n] cnt IH]; cbn; [done|].
  destruct (decide (w' = w)) as [->|Hne]; cbn.
  - rewrite decide_True by left. done.
  - rewrite IH. destruct (decide (w ∈ cnt.*1)) as [Hin|Hnin].
    + rewrite decide_True by (now right). done.
    + rewrite decide_False; [done|].
      intros [->|?]%elem_of_cons; done.
Qed.

Lemma elem_of_counter_incr w (cnt : list (string * nat)) x n :
  NoDup cnt.*1 ->
  (x, n) ∈ counter_incr w cnt ->
  (x ≠ w ∧ (x, n) ∈ cnt)
  ∨ (x = w ∧ ((∃ m, n = S m ∧ (w, m) ∈ cnt) ∨ (n = 1 ∧ w ∉ cnt.*1))).
Proof.
  induction cnt as [|[w' m] cnt IH]; cbn; intros Hnd Hin.
  - apply list_elem_of_singleton in Hin. simplify_eq. right. split; [done|].
    right. split; [done|]. apply not_elem_of_nil.
  - apply NoDup_cons in Hnd as [Hw' Hnd].
    destruct (decide (w' = w)) as [->|Hne].
    + apply elem_of_cons in Hin as [Heq|Hin].
      * simplify_eq. right. split; [done|]. left. exists m. split; [done|]. left.
      * destruct (decide (x = w)) as [->|Hx].
        -- exfalso. apply Hw'. apply list_elem_of_fmap. now exists (w, n).
        -- left. split; [done|]. now right.
    + apply elem_of_cons in Hin as [Heq|Hin].
      * simplify_eq. left. split; [done|]. left.
      * destruct (IH Hnd Hin) as [[Hx Hc]|[-> [(k & -> & Hk)|[-> Hk]]]].
        -- left. split; [done|]. now right.
        -- right. split; [done|]. left. exists k. split; [done|]. now right.
        -- right. split; [done|]. right. split; [done|].
           intros [?|?]%elem_of_cons; [congruence|done].
Qed.

(** The counter lists every distinct token once, in first-seen order, with
    the number of its occurrences. *)
Lemma Counter_spec l :
  NoDup (Counter l).*1
  ∧ (∀ x, x ∈ (Counter l).*1 ↔ x ∈ l)
  ∧ (∀ x n, (x, n) ∈ Counter l -> n = occurrences x l)
  ∧ StronglySorted (fun a b => first_index a l < first_index b l) (Counter l).*1.
Proof.
  induction l as [|w l (Hnd & Hkeys & Hcnt & Hord)] using rev_ind.
  - cbn. split_and!; [constructor|done|intros x n []%elem_of_nil|constructor].
  - rewrite Counter_snoc. split_and!.
    + rewrite counter_incr_keys. case_decide; [done|].
      apply NoDup_app. split_and!; [done| |apply NoDup_singleton].
      intros x Hx ->%list_elem_of_singleton. done.
    + intros x. rewrite counter_incr_keys, elem_of_app, list_elem_of_singleton.
      case_decide as Hw; rewrite ?elem_of_app, ?list_elem_of_singleton, Hkeys;
        [|tauto].
      split; [tauto|]. intros [?| ->]; [done|]. now apply Hkeys.
    + intros x n Hin. rewrite occurrences_snoc.
      destruct (elem_of_counter_incr _ _ _ _ Hnd Hin)
        as [[Hx Hc]|[-> [(k & -> & Hk)|[-> Hk]]]].
      * rewrite decide_False by done. rewrite (Hcnt _ _ Hc). lia.
      * rewrite decide_True by done. rewrite (Hcnt _ _ Hk). lia.
      * rewrite decide_True by done. rewrite occurrences_notin; [done|].
        now rewrite <- Hkeys.
    + assert (Hmono : StronglySorted
                (fun a b => first_index a (l ++ [w]) < first_index b (l ++ [w]))
                (Counter l).*1).
      { assert (Hall : Forall (fun x => x ∈ l) (Counter l).*1)
          by (apply Forall_forall; intros x; apply Hkeys).
        revert Hord Hall. generalize ((Counter l).*1). intros ks Hord.
        induction Hord as [|a ks Hs IH Hfa]; intros Hall; [constructor|].
        apply Forall_cons in Hall as [Ha Hall]. constructor; [auto|].
        rewrite Forall_forall in Hfa, Hall |- *. intros b Hb.
        rewrite !first_index_app_l by auto. auto. }
      rewrite counter_incr_keys. case_decide as Hw; [done|].
      apply StronglySorted_app_2; [|done|repeat constructor].
      intros a b Ha ->%list_elem_of_singleton.
      apply Hkeys in Ha.
      rewrite first_index_app_l by done.
      rewrite first_index_fresh by (now rewrite <- Hkeys).
      now apply first_index_lt.
Qed.

(** *** The stable sort of [most_common] *)

Lemma mc_insert_perm x l : mc_insert x l ≡ₚ x :: l.
Proof.
  induction l as [|y l IH]; cbn [mc_insert]; [reflexivity|].
  destruct (x.2 <? y.2); [|reflexivity]. rewrite IH. apply Permutation_swap.
Qed.

Lemma mc_sort_perm l : mc_sort l ≡ₚ l.
Proof.
  induction l as [|x l IH]; cbn; [reflexivity|]. now rewrite mc_insert_perm, IH.
Qed.

Section MostCommon.
Variable pos : string -> nat.

Lemma mc_insert_sorted x l :
  StronglySorted (ranks_before pos) l ->
  Forall (fun y => pos x.1 < pos y.1) l ->
  StronglySorted (ranks_before pos) (mc_insert x l).
Proof.
  induction l as [|y l IH]; cbn [mc_insert]; intros Hs Hf.
  - repeat constructor.
  - apply StronglySorted_cons in Hs as [Hy Hs].
    apply Forall_cons in Hf as [Hxy Hf].
    rewrite Forall_forall in Hy, Hf.
    destruct (x.2 <? y.2) eqn:E.
    + apply Nat.ltb_lt in E. constructor; [now apply IH; [|apply Forall_forall]|].
      apply Forall_forall. intros z Hz. rewrite mc_insert_perm in Hz.
      apply elem_of_cons in Hz as [->|Hz]; [now left|auto].
    + apply Nat.ltb_ge in E. constructor.
      * constructor; [done|]. now apply Forall_forall.
      * apply Forall_forall. intros z [->|Hz]%elem_of_cons.
        -- unfold ranks_before. lia.
        -- specialize (Hy z Hz). specialize (Hf z Hz).
           unfold ranks_before in *. lia.
Qed.

(** Sorting a list given in position order ranks it by count, ties by
    position. *)
Lemma mc_sort_sorted l :
  StronglySorted (fun a b => pos a < pos b) l.*1 ->
  StronglySorted (ranks_before pos) (mc_sort l).
Proof.
  induction l as [|x l IH]; cbn; intros Hs; [constructor|].
  apply StronglySorted_cons in Hs as [Hx Hs].
  apply mc_insert_sorted; [auto|].
  apply Forall_forall. intros y Hy. rewrite mc_sort_perm in Hy.
  rewrite Forall_forall in Hx. apply Hx. apply list_elem_of_fmap. eauto.
Qed.
End MostCommon.

Lemma StronglySorted_lookup {A} (R : relation A) l i j a b :
  StronglySorted R l -> i < j -> l !! i = Some a -> l !! j = Some b -> R a b.
Proof.
  intros Hs. revert i j. induction Hs as [|x l Hs IH Hx]; intros i j Hij Hi Hj.
  - done.
  - destruct j as [|j]; [lia|]. cbn in Hj. destruct i as [|i]; cbn in Hi.
    + simplify_eq. rewrite Forall_forall in Hx. apply Hx.
      eapply list_elem_of_lookup_2; eauto.
    + eapply IH; [|eauto..]. lia.
Qed.

(** C1. For every text, present or missing, and every bound k (the loader
    takes k = 10), the keyword extractor returns at most k tokens, pairwise
    distinct; each is a token of the text made of letters a-z only, longer
    than 2 characters and not a stop word; a token listed earlier occurs at
    least as often in the text as one listed later, and of two that occur
    equally often the one first seen earlier in the text is listed first;
    for an empty or missing text the result is the empty list.  The
    extractor is a total function: it returns a list on every input. *)
Theorem top_k_keywords_from_abstract_spec (abstract : option string) (k : nat) :
  let toks := tokenize abstract in
  let out := top_k_keywords_from_abstract abstract k in
  length out ≤ k
  ∧ NoDup out
  ∧ (∀ w, w ∈ out ->
       w ∈ toks ∧ lowercase_alpha w ∧ 2 < String.length w ∧ w ∉ STOPWORDS)
  ∧ (∀ i j wi wj, i < j -> out !! i = Some wi -> out !! j = Some wj ->
       occurrences wj toks ≤ occurrences wi toks
       ∧ (occurrences wi toks = occurrences wj toks ->
          first_index wi toks < first_index wj toks))
  ∧ top_k_keywords_from_abstract None k = []
  ∧ top_k_keywords_from_abstract (Some "") k = []
  ∧ (∀ p : Paper, keywords_of p = top_k_keywords_from_abstract (Some (abstract_of p)) 10).
Proof.
  cbv zeta. unfold top_k_keywords_from_abstract at 1 2 3 4 5.
  assert (Htok := tokenize_spec abstract).
  set (toks := tokenize abstract) in *. clearbody toks.
  destruct (Counter_spec toks) as (Hnd & Hkeys & Hcnt & Hord).
  assert (Hsub : ∀ x, x ∈ most_common k (Counter toks) -> x ∈ Counter toks).
  { intros x Hx. unfold most_common in Hx. apply elem_of_take in Hx as (i & Hx & _).
    apply list_elem_of_lookup_2 in Hx. now rewrite mc_sort_perm in Hx. }
  split_and!.
  - unfold most_common. rewrite length_fmap, length_take. lia.
  - unfold most_common. rewrite fmap_take.
    assert (Hs : NoDup (mc_sort (Counter toks)).*1) by now rewrite mc_sort_perm.
    rewrite <- (take_drop k (mc_sort (Counter toks)).*1) in Hs.
    now apply NoDup_app in Hs as [Hs _].
  - intros w (x & -> & Hx)%list_elem_of_fmap.
    assert (Hw : x.1 ∈ toks) by (apply Hkeys, list_elem_of_fmap; eauto).
    split; [done|]. now apply Htok.
  - intros i j wi wj Hij Hi Hj.
    rewrite list_lookup_fmap in Hi, Hj.
    destruct (most_common k (Counter toks) !! i) as [[wi' ni]|] eqn:Ei; [|done].
    destruct (most_common k (Counter toks) !! j) as [[wj' nj]|] eqn:Ej; [|done].
    cbn in Hi, Hj. simplify_eq.
    rewrite <- (Hcnt wi ni), <- (Hcnt wj nj)
      by (apply Hsub; eapply list_elem_of_lookup_2; eauto).
    unfold most_common in Ei, Ej.
    apply lookup_take_Some in Ei as [Ei _]. apply lookup_take_Some in Ej as [Ej _].
    pose proof (StronglySorted_lookup _ _ _ _ _ _
                  (mc_sort_sorted (fun w => first_index w toks) _ Hord) Hij Ei Ej) as Hr.
    unfold ranks_before in Hr. cbn in Hr. lia.
  - unfold top_k_keywords_from_abstract, most_common. cbn. now rewrite take_nil.
  - unfold top_k_keywords_from_abstract, most_common. cbn. now rewrite take_nil.
  - reflexivity.
Qed.

(** ** Item projector *)

Lemma filter_author_of_authors p (l : list string) :
  filter is_author_item (author_item p <$> l) = author_item p <$> l.
Proof.
  induction l as [|au l IH]; [done|]. cbn [fmap list_fmap].
  rewrite filter_cons_True by reflexivity. now rewrite IH.
Qed.

Lemma filter_author_of_categories p (l : list string) :
  filter is_author_item (cat_item p <$> l) = [].
Proof.
  induction l as [|c l IH]; [done|]. cbn [fmap list_fmap].
  now rewrite filter_cons_False by (intros H; vm_compute in H; congruence).
Qed.

Lemma filter_author_of_keywords p (l : list string) : forall seen,
  filter is_author_item (kw_items p seen l) = [].
Proof.
  induction l as [|kw l IH]; intros seen; cbn [kw_items]; [done|].
  destruct (decide (kw ∈ seen)) as [_|_]; [apply IH|].
  rewrite filter_cons_False by (intros H; vm_compute in H; congruence). apply IH.
Qed.

Lemma author_items_of_paper p :
  filter is_author_item (project_paper p) = author_item p <$> authors_of p.
Proof.
  unfold project_paper.
  rewrite filter_cons_False by (intros H; vm_compute in H; congruence).
  rewrite !filter_app, filter_author_of_authors, filter_author_of_categories,
    filter_author_of_keywords.
  now rewrite app_nil_r.
Qed.

Lemma author_item_inj p : Inj (=) (=) (author_item p).
Proof.
  intros au1 au2 H.
  assert (Hpk : author_item p au1 !! "PK" = author_item p au2 !! "PK") by now rewrite H.
  change (Some (VStr ("AUTHORITEM#" +:+ au1)) = Some (VStr ("AUTHORITEM#" +:+ au2))) in Hpk.
  simplify_eq. done.
Qed.

(** C2, as the code has it. For every paper, the projector emits one
    AuthorItem per entry of the authors list, in the order of the list, so
    exactly M of them for a list of size M; the author name enters the keys
    verbatim, so names that differ (in casing or otherwise) give different
    items; and when the names of the list are pairwise distinct, so are the
    AuthorItems: at most one per (author, paper) pair. *)
Theorem author_items_one_per_entry (p : Paper) :
  filter is_author_item (project_paper p) = author_item p <$> authors_of p
  ∧ length (filter is_author_item (project_paper p)) = length (authors_of p)
  ∧ (∀ au, author_item p au !! "PK" = Some (VStr ("AUTHORITEM#" +:+ au))
           ∧ author_item p au !! "GSI1PK" = Some (VStr ("AUTHOR#" +:+ au)))
  ∧ (∀ au1 au2, au1 ≠ au2 -> author_item p au1 ≠ author_item p au2)
  ∧ (NoDup (authors_of p) -> NoDup (filter is_author_item (project_paper p))).
Proof.
  rewrite author_items_of_paper. split_and!.
  - done.
  - now rewrite length_fmap.
  - intros au. split; reflexivity.
  - intros au1 au2 Hne Heq. now apply author_item_inj in Heq.
  - intros Hnd. apply NoDup_fmap_2; [apply author_item_inj|done].
Qed.

(** C2, as stated, fails: a paper that lists one author twice gets two
    AuthorItems for the same (author, paper) pair. *)
Lemma repeated_author_projected_twice :
  let p := paper_repeated_author in
  1 ≤ length (authors_of p)
  ∧ filter is_author_item (project_paper p)
    = [author_item p "Ann Lee"; author_item p "Ann Lee"]
  ∧ ¬ NoDup (filter is_author_item (project_paper p)).
Proof.
  cbv zeta. rewrite author_items_of_paper. split_and!.
  - cbn. lia.
  - reflexivity.
  - cbn. intros Hnd. apply NoDup_cons in Hnd as [Hnd _].
    apply Hnd. left.
Qed.

Lemma elem_of_kw_items p it (l : list string) : forall seen,
  it ∈ kw_items p seen l -> ∃ kw, kw ∈ l ∧ it = kw_item p kw.
Proof.
  induction l as [|kw l IH]; intros seen; cbn [kw_items].
  - intros []%elem_of_nil.
  - destruct (decide (kw ∈ seen)) as [_|_].
    + intros (k & ? & ?)%IH. exists k. split; [now right|done].
    + intros [->|(k & ? & ?)%IH]%elem_of_cons.
      * exists kw. split; [left|done].
      * exists k. split; [now right|done].
Qed.

(** the four kinds of items a paper is projected to *)
Lemma elem_of_project_paper p it :
  it ∈ project_paper p ->
  it = detail_item p
  ∨ (∃ cat, cat ∈ categories_of p ∧ it = cat_item p cat)
  ∨ (∃ au, au ∈ authors_of p ∧ it = author_item p au)
  ∨ (∃ kw, kw ∈ keywords_of p ∧ it = kw_item p kw).
Proof.
  unfold project_paper. rewrite elem_of_cons, !elem_of_app, !list_elem_of_fmap.
  intros [?|[(c & ? & ?)|[(a & ? & ?)|?%elem_of_kw_items]]]; eauto 6.
Qed.

Lemma date_id_undated p :
  published p = None -> date_id p = "0000-00-00#" +:+ fstr (arxiv_id p).
Proof. unfold date_id, published_date. now intros ->. Qed.

(** C7. A paper without publication timestamp is projected like any other
    (to its detail item, one item per category, per author and per keyword),
    and every item that has a date segment in its sort key, which is every
    item but the detail item, carries the date 0000-00-00 there, in the
    primary sort key and in the sort key of its index. *)
Theorem missing_date_uses_sentinel (p : Paper) :
  published p = None ->
  published_date p = "0000-00-00"
  ∧ length (project_paper p)
    = 1 + length (categories_of p) + length (authors_of p)
      + length (kw_items p ∅ (keywords_of p))
  ∧ (∀ it, it ∈ project_paper p ->
       it = detail_item p
       ∨ it !! "SK" = Some (VStr ("0000-00-00#" +:+ fstr (arxiv_id p))))
  ∧ (∀ au, author_item p au !! "GSI1SK"
           = Some (VStr ("0000-00-00#" +:+ fstr (arxiv_id p))))
  ∧ (∀ kw, kw_item p kw !! "GSI2SK"
           = Some (VStr ("0000-00-00#" +:+ fstr (arxiv_id p)))).
Proof.
  intros Hp. pose proof (date_id_undated p Hp) as Hd. split_and!.
  - unfold published_date. now rewrite Hp.
  - unfold project_paper. cbn [length]. rewrite !length_app, !length_fmap. lia.
  - intros it Hit. rewrite <- Hd.
    destruct (elem_of_project_paper _ _ Hit)
      as [->|[(c & _ & ->)|[(a & _ & ->)|(k & _ & ->)]]]; [now left|right..];
      reflexivity.
  - intros au. rewrite <- Hd. reflexivity.
  - intros kw. rewrite <- Hd. reflexivity.
Qed.

Lemma missing_date_uses_sentinel_witness :
  published paper_undated = None
  ∧ ∀ it, it ∈ project_paper paper_undated ->
      it = detail_item paper_undated
      ∨ it !! "SK" = Some (VStr "0000-00-00#2401.00003").
Proof.
  split; [reflexivity|].
  exact (proj1 (proj2 (proj2 (missing_date_uses_sentinel paper_undated eq_refl)))).
Defined.

(** ** Store writer *)

Lemma put_item_ok table it :
  item_ok it = true -> put_item table it = Ok (<[item_key it := it]> table).
Proof.
  unfold put_item, item_ok, item_key, str_attr. intros H. rewrite H.
  apply andb_prop in H as [[Hpk Hsk]%andb_prop Hall].
  apply bool_decide_eq_true in Hpk as [vp Hp], Hsk as [vs Hs].
  cbn [AttributeDefinitions forallb] in Hall.
  rewrite Hp, Hs in Hall |- *. cbn [from_option] in Hall.
  apply andb_prop in Hall as [Hvp Hall]. apply andb_prop in Hall as [Hvs _].
  destruct vp as [|pk|]; try discriminate. destruct vs as [|sk|]; try discriminate.
  reflexivity.
Qed.

Lemma put_batch_ok items : forall table,
  Forall (fun it => item_ok it = true) items ->
  put_batch table items = Ok (write_all table items).
Proof.
  induction items as [|it items IH]; intros table Hok; [done|].
  apply Forall_cons in Hok as [Hit Hok]. cbn [put_batch].
  rewrite put_item_ok by done. cbn. now rewrite IH.
Qed.

Lemma put_batch_app l1 l2 : forall table,
  put_batch table (l1 ++ l2) = put_batch table l1 ≫= fun t => put_batch t l2.
Proof.
  induction l1 as [|it l1 IH]; intros table; [done|].
  cbn [put_batch app]. destruct (put_item table it) as [t|e]; [|done]. cbn. apply IH.
Qed.

Lemma put_batches_concat bs : forall table,
  put_batches table bs = put_batch table (concat bs).
Proof.
  induction bs as [|b bs IH]; intros table; [done|].
  cbn [put_batches concat]. rewrite put_batch_app.
  destruct (put_batch table b) as [t|e]; [|done]. cbn. apply IH.
Qed.

Lemma concat_range_from (l : list Item) fuel : forall i,
  length l - i ≤ fuel ->
  concat ((fun i => take 25 (drop i l)) <$> range_from fuel i (length l) 25) = drop i l.
Proof.
  induction fuel as [|fuel IH]; intros i Hi; cbn [range_from].
  - cbn. symmetry. apply drop_ge. lia.
  - destruct (i <? length l) eqn:E.
    + apply Nat.ltb_lt in E. cbn [fmap list_fmap concat]. rewrite IH by lia.
      rewrite <- drop_drop. apply take_drop.
    + apply Nat.ltb_ge in E. cbn. symmetry. now apply drop_ge.
Qed.

Lemma concat_batches l : concat (batches l) = l.
Proof. unfold batches, py_range. now rewrite concat_range_from by lia. Qed.

Lemma batches_bounded l : Forall (fun b => length b ≤ 25) (batches l).
Proof.
  unfold batches. apply Forall_fmap, Forall_forall. intros i _. cbn.
  rewrite length_take. lia.
Qed.

Lemma lookup_write_all items : forall (table : Table) k,
  write_all table items !! k = from_option Some (table !! k) (last_write k items).
Proof.
  unfold write_all.
  induction items as [|it items IH]; intros table k; [done|].
  cbn [fold_left last_write]. rewrite IH.
  destruct (last_write k items); [done|]. cbn.
  rewrite lookup_insert. destruct (decide (item_key it = k)); done.
Qed.

Lemma write_all_idempotent (table : Table) items :
  write_all (write_all table items) items = write_all table items.
Proof.
  apply map_eq. intros k. rewrite !lookup_write_all.
  now destruct (last_write k items).
Qed.

Lemma last_write_key k items it : last_write k items = Some it -> item_key it = k.
Proof.
  induction items as [|x items IH]; [done|]. cbn [last_write].
  destruct (last_write k items); [intros [= ->]; auto|].
  case_decide; [|done]. now intros [= <-].
Qed.

Lemma last_write_is_Some it items :
  it ∈ items -> is_Some (last_write (item_key it) items).
Proof.
  induction items as [|x items IH]; [intros []%elem_of_nil|].
  intros Hin. cbn [last_write].
  destruct (last_write (item_key it) items) eqn:E; [done|].
  apply elem_of_cons in Hin as [->|Hin].
  - now rewrite decide_True.
  - destruct (IH Hin) as [? ?]. done.
Qed.

(** *** What the loader writes is accepted by the store *)

Lemma date_id_truthy p : Str.truthy (date_id p) = true.
Proof. unfold date_id. now destruct (published_date p). Qed.

Lemma detail_item_ok p : item_ok (detail_item p) = true.
Proof. reflexivity. Qed.

Lemma cat_item_ok p c : item_ok (cat_item p c) = true.
Proof.
  unfold cat_item. generalize (date_id_truthy p). generalize (date_id p).
  intros [|a d] Hd; [discriminate|reflexivity].
Qed.

Lemma author_item_ok p au : item_ok (author_item p au) = true.
Proof.
  unfold author_item. generalize (date_id_truthy p). generalize (date_id p).
  intros [|a d] Hd; [discriminate|reflexivity].
Qed.

Lemma kw_item_ok p kw : item_ok (kw_item p kw) = true.
Proof.
  unfold kw_item. generalize (date_id_truthy p). generalize (date_id p).
  intros [|a d] Hd; [discriminate|reflexivity].
Qed.

Lemma project_paper_ok p : Forall (fun it => item_ok it = true) (project_paper p).
Proof.
  apply Forall_forall. intros it Hit.
  destruct (elem_of_project_paper _ _ Hit)
    as [->|[(c & _ & ->)|[(a & _ & ->)|(k & _ & ->)]]];
    auto using detail_item_ok, cat_item_ok, author_item_ok, kw_item_ok.
Qed.

Lemma all_items_fold ps : forall st,
  all_items (fold_left load_step ps st) = all_items st ++ concat (project_paper <$> ps).
Proof.
  induction ps as [|p ps IH]; intros st; cbn [fold_left fmap list_fmap concat].
  - now rewrite app_nil_r.
  - rewrite IH. cbn [load_step all_items]. now rewrite app_assoc.
Qed.

Lemma all_items_project_all ps :
  all_items (project_all ps) = concat (project_paper <$> ps).
Proof. unfold project_all. now rewrite all_items_fold. Qed.

Lemma project_all_ok ps :
  Forall (fun it => item_ok it = true) (all_items (project_all ps)).
Proof.
  rewrite all_items_project_all. apply Forall_concat, Forall_fmap, Forall_forall.
  intros p _. apply project_paper_ok.
Qed.

Lemma total_papers_fold ps : forall st,
  total_papers (fold_left load_step ps st) = total_papers st + length ps.
Proof.
  induction ps as [|p ps IH]; intros st; cbn [fold_left length]; [lia|].
  rewrite IH. cbn. lia.
Qed.

(** the writes of [main] are the items of [all_items], one after the other *)
Lemma main_writes table ps :
  put_batches table (batches (all_items (project_all ps)))
  = Ok (write_all table (all_items (project_all ps))).
Proof.
  rewrite put_batches_concat, concat_batches. apply put_batch_ok, project_all_ok.
Qed.

(** [main] returns on every corpus; its summary depends on the corpus only *)
Lemma main_returns ps :
  ∃ s, loaded_papers s = length ps
       ∧ created_items s = sum_counts (counts (project_all ps))
       ∧ ∀ table, main table ps = Ok (write_all table (all_items (project_all ps)), s).
Proof.
  pose proof (total_papers_fold ps init_state) as Hn. fold (project_all ps) in Hn.
  cbn in Hn. unfold main. rewrite Hn.
  destruct (length ps) as [|n]; cbn; eexists; split_and!.
  3, 6: intros table; rewrite main_writes; reflexivity.
  all: reflexivity.
Qed.

(** C8. The store writer cuts every sequence of items into batches of at
    most 25 items that together are the sequence itself, so every item is
    submitted in exactly one batch; the items the store accepts are all
    written; and for the items the loader derives from a corpus every write
    succeeds, after which the table holds, under the key of each derived
    item, the last derived item with that key. *)
Theorem store_writer_persists_in_batches :
  (∀ items : list Item,
     Forall (fun b => length b ≤ 25) (batches items)
     ∧ concat (batches items) = items)
  ∧ (∀ (table : Table) items,
       Forall (fun it => item_ok it = true) items ->
       put_batches table (batches items) = Ok (write_all table items))
  ∧ (∀ (table : Table) papers,
       let items := all_items (project_all papers) in
       ∃ table',
         put_batches table (batches items) = Ok table'
         ∧ ∀ it, it ∈ items ->
             ∃ it', table' !! item_key it = Some it'
                    ∧ last_write (item_key it) items = Some it').
Proof.
  split_and!.
  - intros items. split; [apply batches_bounded|apply concat_batches].
  - intros table items Hok.
    rewrite put_batches_concat, concat_batches. now apply put_batch_ok.
  - intros table papers items. exists (write_all table items).
    split; [apply main_writes|].
    intros it Hit. rewrite lookup_write_all.
    destruct (last_write_is_Some _ _ Hit) as [it' Hl]. rewrite Hl. eauto.
Qed.

(** C6. From any table, the loader succeeds on every corpus, and running it
    again on the same corpus leaves the table as the first run left it, with
    the same number of stored items, and reports the same summary.  A write
    of an accepted item never fails: it puts the item under its (PK, SK)
    pair, replacing what was stored there, so the number of stored items
    does not grow when the pair was taken. *)
Theorem loader_rerun_idempotent (table : Table) (papers : list Paper) :
  (∃ table1 s,
     main table papers = Ok (table1, s)
     ∧ main table1 papers = Ok (table1, s)
     ∧ ∀ table2 s2, main table1 papers = Ok (table2, s2) -> size table2 = size table1)
  ∧ (∀ (t : Table) it,
       item_ok it = true ->
       put_item t it = Ok (<[item_key it := it]> t)
       ∧ (<[item_key it := it]> t) !! item_key it = Some it
       ∧ (is_Some (t !! item_key it) -> size (<[item_key it := it]> t) = size t)).
Proof.
  split.
  - destruct (main_returns papers) as (s & _ & _ & Hmain).
    exists (write_all table (all_items (project_all papers))), s.
    assert (H2 : main (write_all table (all_items (project_all papers))) papers
                 = Ok (write_all table (all_items (project_all papers)), s))
      by now rewrite Hmain, write_all_idempotent.
    split_and!; [apply Hmain|exact H2|].
    intros table2 s2 H. rewrite H2 in H. now simplify_eq.
  - intros t it Hok. split_and!.
    + now apply put_item_ok.
    + apply lookup_insert_eq.
    + intros Hv. now apply map_size_insert_Some.
Qed.

(** C10. On an empty corpus the loader succeeds: nothing is projected, no
    batch is written, the table is left as it was, and the summary reports 0
    papers, 0 items and the ratio 0, taken from the guard on the number of
    papers; the division the guard skips would have raised. *)
Theorem empty_corpus_summary (table : Table) :
  main table []
  = Ok (table,
        {| loaded_papers := 0;
           created_items := 0;
           denorm_factor := 0 # 1;
           breakdown := {| paper_detail_items := 0; category_items := 0;
                           author_items := 0; keyword_items := 0 |} |})
  ∧ batches (all_items (project_all [])) = []
  ∧ truediv 0 0 = Raise (Exc "ZeroDivisionError").
Proof. split_and!; reflexivity. Qed.

(** ** Order of the index keys *)

Lemma cmp_refl `{CmpOrder K cmp} a : cmp a a = Eq.
Proof. pose proof (cmp_antisym a a) as E. destruct (cmp a a); done. Qed.

Lemma cmp_gt_lt `{CmpOrder K cmp} a b : cmp a b = Gt <-> cmp b a = Lt.
Proof. rewrite (cmp_antisym a b). destruct (cmp b a); cbn; split; congruence. Qed.

#[global] Instance string_cmp_order : CmpOrder String.compare.
Proof.
  split.
  - apply String.compare_eq_iff.
  - apply String.compare_antisym.
  - intros a b c Hab Hbc.
    assert (Hle : String.le a c).
    { transitivity b; unfold String.le, String.leb; [now rewrite Hab|now rewrite Hbc]. }
    unfold String.le, String.leb in Hle.
    destruct (String.compare a c) eqn:Hac; [|done|done].
    apply String.compare_eq_iff in Hac as ->.
    rewrite String.compare_antisym, Hbc in Hab. done.
Qed.

#[global] Instance pair_cmp_order {A B} (ca : A -> A -> comparison)
    (cb : B -> B -> comparison) `{!CmpOrder ca, !CmpOrder cb} :
  CmpOrder (fun a b : A * B => lex (ca a.1 b.1) (cb a.2 b.2)).
Proof.
  split.
  - intros [a1 a2] [b1 b2]; cbn. unfold lex.
    destruct (ca a1 b1) eqn:E1; [|done..].
    intros E2. apply (cmp_eq (cmp:=ca)) in E1. apply (cmp_eq (cmp:=cb)) in E2.
    now subst.
  - intros [a1 a2] [b1 b2]; cbn. unfold lex.
    rewrite (cmp_antisym (cmp:=ca) a1 b1), (cmp_antisym (cmp:=cb) a2 b2).
    destruct (ca b1 a1); done.
  - intros [a1 a2] [b1 b2] [c1 c2]; cbn. unfold lex.
    destruct (ca a1 b1) eqn:E1; [| |done].
    + apply (cmp_eq (cmp:=ca)) in E1 as ->.
      destruct (ca b1 c1); [|done..]. apply (cmp_trans (cmp:=cb)).
    + intros _. destruct (ca b1 c1) eqn:E2; [| |done].
      * apply (cmp_eq (cmp:=ca)) in E2 as <-. now rewrite E1.
      * now rewrite (cmp_trans (cmp:=ca) _ _ _ E1 E2).
Qed.

#[global] Instance okey_cmp_order : CmpOrder okey_compare.
Proof.
  exact (pair_cmp_order String.compare
           (fun x y : string * string =>
              lex (String.compare x.1 y.1) (String.compare x.2 y.2))).
Qed.

#[global] Instance scan_cmp_order forward : CmpOrder (scan_compare forward).
Proof.
  destruct forward; cbn; [apply okey_cmp_order|].
  split.
  - intros a b H. symmetry. now apply (cmp_eq (cmp:=okey_compare)).
  - intros a b. apply (cmp_antisym (cmp:=okey_compare)).
  - intros a b c Hab Hbc. now apply (cmp_trans (cmp:=okey_compare) c b a).
Qed.

(** ** Sorting by index position *)

Section SortLemmas.
Context {A : Type} (cmp : OrderKey -> OrderKey -> comparison) `{!CmpOrder cmp}.
Implicit Types (x y : OrderKey * A) (l : list (OrderKey * A)).


Lemma insert_by_perm x l : insert_by cmp x l ≡ₚ x :: l.
Proof.
  induction l as [|y l IH]; cbn [insert_by]; [reflexivity|].
  destruct (cmp x.1 y.1); try reflexivity. rewrite IH. apply Permutation_swap.
Qed.

Lemma sort_by_perm l : sort_by cmp l ≡ₚ l.
Proof.
  induction l as [|x l IH]; cbn [sort_by]; [reflexivity|].
  now rewrite insert_by_perm, IH.
Qed.

Lemma insert_by_sorted x l :
  StronglySorted (key_lt cmp) l -> x.1 ∉ l.*1 -> StronglySorted (key_lt cmp) (insert_by cmp x l).
Proof.
  induction l as [|y l IH]; cbn [insert_by]; intros Hs Hx.
  - repeat constructor.
  - apply StronglySorted_cons in Hs as [Hy Hs].
    cbn in Hx. apply not_elem_of_cons in Hx as [Hxy Hx].
    rewrite Forall_forall in Hy.
    destruct (cmp x.1 y.1) eqn:E.
    + now apply cmp_eq in E.
    + constructor; [constructor; [done|now apply Forall_forall]|].
      apply Forall_forall. intros z [->|Hz]%elem_of_cons; [done|].
      unfold key_lt. eapply cmp_trans; [exact E|]. now apply Hy.
    + constructor; [auto|]. apply Forall_forall. intros z Hz.
      rewrite insert_by_perm in Hz. apply elem_of_cons in Hz as [->|Hz]; [|auto].
      now apply cmp_gt_lt.
Qed.

Lemma sort_by_sorted l : NoDup l.*1 -> StronglySorted (key_lt cmp) (sort_by cmp l).
Proof.
  induction l as [|x l IH]; cbn [sort_by]; intros Hnd; [constructor|].
  cbn in Hnd. apply NoDup_cons in Hnd as [Hx Hnd].
  apply insert_by_sorted; [auto|]. now rewrite sort_by_perm.
Qed.

Lemma after_none k l :
  Forall (fun y => cmp k y.1 ≠ Lt) l -> after cmp k l = [].
Proof.
  induction 1 as [|y l Hy _ IH]; [done|]. unfold after in *. cbn [List.filter].
  rewrite IH. now destruct (cmp k y.1).
Qed.

Lemma after_all k l :
  Forall (fun y => cmp k y.1 = Lt) l -> after cmp k l = l.
Proof.
  induction 1 as [|y l Hy _ IH]; [done|]. unfold after in *. cbn [List.filter].
  now rewrite IH, Hy.
Qed.

(** In a strictly ascending walk, what lies after the position of an
    element is what follows the element. *)
Lemma after_split l1 x l2 :
  StronglySorted (key_lt cmp) (l1 ++ x :: l2) -> after cmp x.1 (l1 ++ x :: l2) = l2.
Proof.
  intros Hs. apply StronglySorted_app in Hs as (H12 & _ & Hs2).
  apply StronglySorted_cons in Hs2 as [Hx _].
  unfold after. rewrite List.filter_app. fold (after cmp x.1 l1).
  rewrite after_none.
  - cbn [List.filter app]. rewrite cmp_refl. now apply after_all.
  - apply Forall_forall. intros y Hy.
    assert (Hlt : key_lt cmp y x) by (apply H12; [done|left]).
    apply cmp_gt_lt in Hlt. congruence.
Qed.
End SortLemmas.

(** ** The Query operation *)

Lemma str_attr_stored_PK kv : str_attr "PK" (stored_item kv) = Some kv.1.1.
Proof. unfold str_attr, stored_item. now rewrite lookup_insert_eq. Qed.

Lemma str_attr_stored_SK kv : str_attr "SK" (stored_item kv) = Some kv.1.2.
Proof.
  unfold str_attr, stored_item.
  rewrite lookup_insert_ne by done. now rewrite lookup_insert_eq.
Qed.

Lemma okey_inv ks it k :
  okey ks it = Some k ->
  str_attr (range_attr ks) it = Some k.1
  ∧ str_attr "PK" it = Some k.2.1 ∧ str_attr "SK" it = Some k.2.2.
Proof.
  unfold okey. intros H.
  destruct (str_attr (range_attr ks) it); [|done].
  destruct (str_attr "PK" it); [|done].
  destruct (str_attr "SK" it); [|done].
  cbn in H. now simplify_eq.
Qed.

Lemma selected_Some ks c it x :
  selected ks c it = Some x <->
  x.2 = it ∧ okey ks it = Some x.1
  ∧ str_attr (hash_attr ks) it = Some (condition_value c)
  ∧ range_ok c x.1.1 = true.
Proof.
  unfold selected. destruct (str_attr (hash_attr ks) it) as [h|]; cbn.
  2: { split; [done|]. intros (_ & _ & ? & _). done. }
  destruct (okey ks it) as [k|]; cbn.
  2: { split; [done|]. intros (_ & ? & _). done. }
  destruct x as [k' it']; cbn.
  destruct (bool_decide (h = condition_value c)) eqn:Eh; cbn.
  - apply bool_decide_eq_true in Eh as ->.
    destruct (range_ok c k.1) eqn:Er.
    + split; [intros [= <- <-]; done|]. intros (-> & [= ->] & _). done.
    + split; [done|]. intros (_ & [= ->] & _ & ?). congruence.
  - apply bool_decide_eq_false in Eh.
    split; [done|]. intros (_ & _ & [= ->] & _). done.
Qed.

(** positions of selected items are pairwise distinct: a position ends in
    the primary key *)
Lemma selected_keys_NoDup (ks : KeySchema) (c : KeyCondition) (table : Table) :
  NoDup (omap (selected ks c) (stored_items table)).*1.
Proof.
  unfold stored_items.
  pose proof (NoDup_fst_map_to_list table) as Hnd. revert Hnd.
  generalize (map_to_list table). intros l.
  induction l as [|kv l IH]; cbn; intros Hnd; [constructor|].
  apply NoDup_cons in Hnd as [Hkv Hnd].
  destruct (selected ks c (stored_item kv)) as [x|] eqn:E; [|auto].
  cbn. constructor; [|auto].
  intros (y & Hxy & Hy)%list_elem_of_fmap.
  apply list_elem_of_omap in Hy as (it' & (kv' & -> & Hkv')%list_elem_of_fmap & E').
  apply Hkv. apply list_elem_of_fmap. exists kv'. split; [|done].
  apply selected_Some in E as (_ & (_ & Hp & Hs)%okey_inv & _).
  apply selected_Some in E' as (_ & (_ & Hp' & Hs')%okey_inv & _).
  rewrite str_attr_stored_PK in Hp, Hp'. rewrite str_attr_stored_SK in Hs, Hs'.
  rewrite <- Hxy in Hp', Hs'. simplify_eq.
  destruct kv as [[] ?], kv' as [[] ?]; cbn in *. congruence.
Qed.

Lemma walk_sorted table ks args :
  StronglySorted (key_lt (scan_compare (ScanIndexForward args))) (walk table ks args).
Proof. apply sort_by_sorted; [apply _|apply selected_keys_NoDup]. Qed.

Lemma elem_of_walk table ks args x :
  x ∈ walk table ks args <->
  x.2 ∈ stored_items table
  ∧ okey ks x.2 = Some x.1
  ∧ str_attr (hash_attr ks) x.2 = Some (condition_value (KeyConditionExpression args))
  ∧ range_ok (KeyConditionExpression args) x.1.1 = true.
Proof.
  unfold walk. rewrite sort_by_perm, list_elem_of_omap. split.
  - intros (it & Hit & (<- & ?)%selected_Some). done.
  - intros (Hit & ?). exists x.2. split; [done|]. now apply selected_Some.
Qed.

Lemma length_omap_le {A B} (f : A -> option B) (l : list A) :
  length (omap f l) ≤ length l.
Proof. induction l as [|a l IH]; cbn; [lia|]. destruct (f a); cbn; lia. Qed.

Lemma walk_length table ks args : length (walk table ks args) ≤ size table.
Proof.
  unfold walk. rewrite sort_by_perm, <- length_map_to_list.
  unfold stored_items. rewrite <- (length_fmap stored_item).
  apply length_omap_le.
Qed.

(** *** Pagination *)

Lemma str_attr_key_of ks name it :
  name ∈ key_attrs ks -> str_attr name (key_of ks it) = str_attr name it.
Proof.
  intros Hn. unfold str_attr, key_of. rewrite map_lookup_filter.
  destruct (it !! name) as [v|]; cbn; [|done]. now rewrite option_guard_True.
Qed.

Lemma okey_key_of ks it : okey ks (key_of ks it) = okey ks it.
Proof.
  unfold okey. rewrite !str_attr_key_of; [done|unfold key_attrs..]; set_solver.
Qed.

Lemma key_of_truthy ks it k :
  okey ks it = Some k -> dict_truthy (Some (key_of ks it)) = true.
Proof.
  intros Hk. rewrite <- okey_key_of in Hk. apply okey_inv in Hk as (_ & Hpk & _).
  cbn. apply negb_true_iff, bool_decide_eq_false. intros Hempty.
  unfold str_attr in Hpk. rewrite Hempty, lookup_empty in Hpk. done.
Qed.

Section Pagination.
Variables (page_cap : positive) (table : Table) (args : QueryArgs) (ix : IndexSchema).
Hypothesis Hix : find_index (IndexName args) = Ok ix.
Hypothesis Hcond : condition_ok (index_keys ix) (KeyConditionExpression args) = true.
Hypothesis Hlimit : from_option (fun n => n <? 1)%Z false (Limit args) = false.

Local Abbreviation ks := (index_keys ix).
Local Abbreviation cmp := (scan_compare (ScanIndexForward args)).
Local Abbreviation n := (page_size page_cap (Limit args)).

Lemma start_position done rest :
  walk table ks args = done ++ rest ->
  match start_of ks done with
  | None => Ok (walk table ks args)
  | Some start =>
      match okey ks start with
      | Some k => Ok (after cmp k (walk table ks args))
      | None => Raise (Exc "ValidationException")
      end
  end = Ok rest.
Proof.
  intros HW. unfold start_of.
  destruct done as [|x d _] using rev_ind.
  - cbn. now rewrite HW.
  - rewrite fmap_last, last_snoc. cbn. rewrite okey_key_of.
    assert (Hx : x ∈ walk table ks args) by (rewrite HW; set_solver).
    apply elem_of_walk in Hx as (_ & Hk & _). rewrite Hk. f_equal.
    pose proof (walk_sorted table ks args) as Hs.
    rewrite HW, <- app_assoc in Hs |- *. cbn [app] in *.
    apply after_split; [apply _|done].
Qed.

Lemma page_size_pos : 0 < n.
Proof.
  unfold page_size. destruct (Limit args) as [z|]; cbn in *; [|lia].
  apply Z.ltb_ge in Hlimit. lia.
Qed.

(** one page of the walk *)
Lemma ddb_query_page done rest :
  walk table ks args = done ++ rest ->
  ddb_query page_cap table (with_start args (start_of ks done))
  = Ok {| Items := project_item ix <$> (take n rest).*2;
          LastEvaluatedKey :=
            if length (take n rest) =? n
            then key_of ks <$> last (take n rest).*2 else None |}.
Proof.
  intros HW. unfold ddb_query.
  cbn [with_start IndexName KeyConditionExpression ScanIndexForward Limit
       ExclusiveStartKey].
  rewrite Hix. cbn [mbind Result_bind]. rewrite Hcond, Hlimit.
  cbn [negb].
  fold (walk table ks args). now rewrite (start_position done rest HW).
Qed.

(** The loop collects the whole walk, whatever the page size. *)
Lemma query_loop_walk fuel : forall done rest acc,
  walk table ks args = done ++ rest ->
  length rest < fuel ->
  query_loop (ddb_query page_cap table) fuel
    (with_start args (start_of ks done)) acc
  = Some (Ok (acc ++ (project_item ix <$> rest.*2))).
Proof.
  induction fuel as [|fuel IH]; intros done rest acc HW Hlen; [lia|].
  cbn [query_loop]. rewrite (ddb_query_page done rest HW).
  cbn [Items LastEvaluatedKey].
  destruct (length (take n rest) =? n) eqn:E.
  - apply Nat.eqb_eq in E.
    destruct (last (take n rest)) as [x|] eqn:El.
    2: { apply last_None in El. rewrite El in E. cbn in E.
         pose proof page_size_pos. lia. }
    rewrite fmap_last, El. cbn [fmap option_fmap option_map].
    assert (Hx : x ∈ walk table ks args).
    { rewrite HW. apply elem_of_app. right.
      pose proof (last_Some_elem_of _ _ El) as Hin.
      apply elem_of_take in Hin as (i & Hi & _).
      eapply list_elem_of_lookup_2; eauto. }
    apply elem_of_walk in Hx as (_ & Hk & _).
    rewrite (key_of_truthy _ _ _ Hk). cbn [negb].
    assert (Hstart : start_of ks (done ++ take n rest) = Some (key_of ks x.2)).
    { unfold start_of. rewrite fmap_app, last_app, fmap_last, El. done. }
    change (query_loop (ddb_query page_cap table) fuel
              (with_start args (Some (key_of ks x.2)))
              (acc ++ (project_item ix <$> (take n rest).*2))
            = Some (Ok (acc ++ (project_item ix <$> rest.*2)))).
    rewrite <- Hstart.
    rewrite (IH (done ++ take n rest) (drop n rest)).
    + rewrite <- app_assoc, <- !fmap_app, take_drop. done.
    + now rewrite <- app_assoc, take_drop.
    + rewrite length_drop. rewrite length_take in E.
      pose proof page_size_pos. lia.
  - apply Nat.eqb_neq in E. cbn [dict_truthy negb].
    rewrite length_take in E. rewrite take_ge by lia. done.
Qed.
End Pagination.

(** ** String order of the sort keys *)

Lemma append_cons a s x : String a s +:+ x = String a (s +:+ x).
Proof. reflexivity. Qed.

Lemma compare_append_prefix p a b :
  String.compare (p +:+ a) (p +:+ b) = String.compare a b.
Proof.
  induction p as [|c p IH]; [done|]. rewrite !append_cons. cbn.
  unfold Ascii.compare. now rewrite N.compare_refl.
Qed.

(** strings of equal length compare before what is appended to them *)
Lemma compare_append_same_length s e x y :
  String.length s = String.length e ->
  String.compare (s +:+ x) (e +:+ y) = lex (String.compare s e) (String.compare x y).
Proof.
  revert e. induction s as [|a s IH]; intros [|b e]; cbn [String.length]; try done.
  intros [= Hlen]. rewrite !append_cons. cbn [String.compare].
  destruct (Ascii.compare a b); cbn [lex]; auto.
Qed.

Lemma le_compare a b : String.le a b <-> String.compare a b ≠ Gt.
Proof. unfold String.le, String.leb. destruct (String.compare a b); cbn; split; done. Qed.

Lemma leb_le a b : String.leb a b = true <-> String.le a b.
Proof. unfold String.le. destruct (String.leb a b); cbn; split; done. Qed.

Lemma StronglySorted_fmap_impl {A B} (R : relation A) (R' : relation B) (f : A -> B) l :
  (∀ a b, a ∈ l -> b ∈ l -> R a b -> R' (f a) (f b)) ->
  StronglySorted R l -> StronglySorted R' (f <$> l).
Proof.
  intros Himpl Hs. induction Hs as [|a l Hs IH Ha]; cbn; [constructor|].
  constructor.
  - apply IH. intros x y Hx Hy. apply Himpl; now right.
  - apply Forall_fmap, Forall_forall. rewrite Forall_forall in Ha.
    intros b Hb. apply Himpl; [left|now right|auto].
Qed.

(** ** Papers in a date range *)

Lemma date_range_result page_cap table c s e fuel :
  String.le (s +:+ "#") (e +:+ "#zzzzzzz") ->
  size table < fuel ->
  query_papers_in_date_range (ddb_query page_cap table) fuel c s e
  = Some (Ok (walk table table_keys (date_range_args c s e)).*2).
Proof.
  intros Hse%leb_le Hf. unfold query_papers_in_date_range.
  assert (Hcond : condition_ok table_keys (KeyConditionExpression (date_range_args c s e))
                  = true) by (cbn; now rewrite Hse).
  change (query_loop (ddb_query page_cap table) fuel
            (with_start (date_range_args c s e) (start_of table_keys [])) []
          = Some (Ok (walk table table_keys (date_range_args c s e)).*2)).
  rewrite (query_loop_walk page_cap table (date_range_args c s e)
             {| index_keys := table_keys; index_projection := None |}
             eq_refl Hcond eq_refl fuel [] (walk table table_keys (date_range_args c s e))).
  - cbn [app]. do 2 f_equal. apply list_fmap_id.
  - done.
  - pose proof (walk_length table table_keys (date_range_args c s e)). lia.
Qed.

(** bounds out of order: the store rejects the first query, and the
    executor does not catch the exception *)
Lemma date_range_inverted page_cap table c s e fuel :
  ¬ String.le (s +:+ "#") (e +:+ "#zzzzzzz") ->
  0 < fuel ->
  query_papers_in_date_range (ddb_query page_cap table) fuel c s e
  = Some (Raise (Exc "ValidationException")).
Proof.
  intros Hse Hf. destruct fuel as [|fuel]; [lia|].
  unfold query_papers_in_date_range. cbn [query_loop].
  unfold ddb_query. cbn.
  destruct (String.leb (s +:+ "#") (e +:+ "#zzzzzzz")) eqn:E; [|done].
  now apply leb_le in E.
Qed.


Lemma walk_items_NoDup table ks args : NoDup (walk table ks args).*2.
Proof.
  pose proof (selected_keys_NoDup ks (KeyConditionExpression args) table) as Hnd.
  rewrite <- (sort_by_perm (scan_compare (ScanIndexForward args))) in Hnd.
  fold (walk table ks args) in Hnd.
  apply NoDup_fmap_2_strong; [|eapply NoDup_fmap_1; exact Hnd].
  intros x y (_ & Hx & _)%elem_of_walk (_ & Hy & _)%elem_of_walk Heq.
  rewrite Heq in Hx. destruct x, y; cbn in *. congruence.
Qed.







(** the example of the specification, on a table with one page per item;
    a range that ends before it starts is rejected *)
Example date_range_january :
  query_papers_in_date_range (ddb_query 1 january_table) 20
    "cs.LG" "2024-01-01" "2024-01-31"
  = Some (Ok [cat_item paper_jan31 "cs.LG"])
  ∧ query_papers_in_date_range (ddb_query 1 january_table) 20
      "cs.LG" "0000-00-00" "2024-02-01"
    = Some (Ok [cat_item paper_undated "cs.LG"; cat_item paper_jan31 "cs.LG";
                cat_item paper_feb01 "cs.LG"])
  ∧ query_papers_in_date_range (ddb_query 1 january_table) 20
      "cs.LG" "2024-02-01" "2024-01-01"
    = Some (Raise (Exc "ValidationException")).
Proof. split_and!; compute_done. Qed.

(** ** Paper by id *)

Lemma project_paper_stored p it :
  it ∈ project_paper p -> stored_item (item_key it, it) = it.
Proof.
  intros Hit. unfold stored_item. cbn [fst snd].
  assert (Hk : it !! "PK" = Some (VStr (item_key it).1)
               ∧ it !! "SK" = Some (VStr (item_key it).2)).
  { destruct (elem_of_project_paper _ _ Hit)
      as [->|[(c & _ & ->)|[(a & _ & ->)|(k & _ & ->)]]]; split; reflexivity. }
  destruct Hk as [Hpk Hsk].
  rewrite (insert_id it "SK") by done. now rewrite insert_id.
Qed.

Lemma loaded_from_empty papers : loaded_from papers ∅.
Proof. intros k it H. now rewrite lookup_empty in H. Qed.

Lemma loaded_from_write_all papers items : forall table,
  loaded_from papers table ->
  Forall (fun it => ∃ p, p ∈ papers ∧ it ∈ project_paper p) items ->
  loaded_from papers (write_all table items).
Proof.
  unfold write_all.
  induction items as [|x items IH]; intros table Ht Hitems; [done|].
  apply Forall_cons in Hitems as [Hx Hitems]. cbn [fold_left].
  apply IH; [|done]. intros k it. rewrite lookup_insert.
  case_decide as Hk; [|apply Ht]. intros [= <-]. done.
Qed.

Lemma elem_of_concat {A} (x : A) (ls : list (list A)) :
  x ∈ concat ls <-> ∃ l, l ∈ ls ∧ x ∈ l.
Proof.
  rewrite list_elem_of_In, in_concat. setoid_rewrite list_elem_of_In. done.
Qed.

Lemma loaded_from_loader papers :
  loaded_from papers (write_all ∅ (all_items (project_all papers))).
Proof.
  apply loaded_from_write_all; [apply loaded_from_empty|].
  rewrite all_items_project_all. apply Forall_forall.
  intros it (l & (p & -> & Hp)%list_elem_of_fmap & Hit)%elem_of_concat. eauto.
Qed.

(** what the id index holds of the four kinds of items *)
Lemma detail_in_id_index p id x :
  selected (index_keys paper_id_index) (KeyEq "GSI3PK" ("PAPER#" +:+ id)) (detail_item p)
  = Some x <->
  fstr (arxiv_id p) = id
  ∧ x = (("DETAIL", ("PAPER#" +:+ id, "DETAIL")), detail_item p).
Proof.
  rewrite selected_Some.
  change (okey (index_keys paper_id_index) (detail_item p))
    with (Some ("DETAIL", ("PAPER#" +:+ fstr (arxiv_id p), "DETAIL"))).
  change (str_attr (hash_attr (index_keys paper_id_index)) (detail_item p))
    with (Some ("PAPER#" +:+ fstr (arxiv_id p))).
  cbn [condition_value range_ok]. destruct x as [k it]; cbn [fst snd]. split.
  - intros (-> & [= <-] & [= Hid] & _). apply (inj _) in Hid. now subst.
  - intros (<- & [= -> ->]). done.
Qed.

Lemma other_not_in_id_index p c it :
  it ∈ project_paper p -> it ≠ detail_item p ->
  selected (index_keys paper_id_index) c it = None.
Proof.
  intros Hit Hne.
  destruct (elem_of_project_paper _ _ Hit)
    as [->|[(? & _ & ->)|[(? & _ & ->)|(? & _ & ->)]]]; [done|reflexivity..].
Qed.

Lemma detail_key_inv p it id :
  it ∈ project_paper p ->
  item_key it = ("PAPER#" +:+ id, "DETAIL") ->
  it = detail_item p ∧ fstr (arxiv_id p) = id.
Proof.
  intros Hit Hk.
  destruct (elem_of_project_paper _ _ Hit)
    as [->|[(? & _ & ->)|[(? & _ & ->)|(? & _ & ->)]]].
  - change (("PAPER#" +:+ fstr (arxiv_id p), "DETAIL") = ("PAPER#" +:+ id, "DETAIL")) in Hk.
    split; [done|]. injection Hk as Hk. now apply (inj _) in Hk.
  - change (("CATEGORY#" +:+ x, date_id p) = ("PAPER#" +:+ id, "DETAIL")) in Hk.
    injection Hk as Hk _. discriminate Hk.
  - change (("AUTHORITEM#" +:+ x, date_id p) = ("PAPER#" +:+ id, "DETAIL")) in Hk.
    injection Hk as Hk _. discriminate Hk.
  - change (("KEYWORDITEM#" +:+ x, date_id p) = ("PAPER#" +:+ id, "DETAIL")) in Hk.
    injection Hk as Hk _. discriminate Hk.
Qed.

Lemma paper_id_selected papers table id x :
  loaded_from papers table ->
  x ∈ omap (selected (index_keys paper_id_index) (KeyEq "GSI3PK" ("PAPER#" +:+ id)))
        (stored_items table)
  <-> x.1 = ("DETAIL", ("PAPER#" +:+ id, "DETAIL"))
      ∧ table !! ("PAPER#" +:+ id, "DETAIL") = Some x.2.
Proof.
  intros Hload. rewrite list_elem_of_omap. unfold stored_items. split.
  - intros (it & ([k v] & -> & Hkv)%list_elem_of_fmap & Hsel).
    apply elem_of_map_to_list in Hkv.
    destruct (Hload _ _ Hkv) as (-> & p & _ & Hv).
    rewrite (project_paper_stored p) in Hsel by done.
    destruct (decide (v = detail_item p)) as [->|Hne].
    + apply detail_in_id_index in Hsel as (<- & ->). done.
    + now rewrite (other_not_in_id_index p) in Hsel.
  - intros (Hk & Hx). destruct (Hload _ _ Hx) as (Hkey & p & _ & Hp).
    symmetry in Hkey. destruct (detail_key_inv _ _ _ Hp Hkey) as [Hd Hid].
    exists x.2. split.
    + apply list_elem_of_fmap. exists (("PAPER#" +:+ id, "DETAIL"), x.2).
      split; [|now apply elem_of_map_to_list].
      rewrite <- Hkey. symmetry. now apply (project_paper_stored p).
    + rewrite Hd. apply detail_in_id_index. split; [done|].
      destruct x; cbn in *. now subst.
Qed.

Lemma at_most_one {A} (K : OrderKey) (l : list (OrderKey * A)) :
  NoDup l.*1 -> (∀ x, x ∈ l -> x.1 = K) -> l = [] ∨ ∃ x, l = [x].
Proof.
  destruct l as [|x [|y l]]; [auto|eauto|].
  intros Hnd HK. exfalso. cbn in Hnd. apply NoDup_cons in Hnd as [Hx _].
  apply Hx. rewrite (HK x), <- (HK y); [left|right; left|left].
Qed.

(** On a table of loader items, the lookup by id returns what is stored
    under the detail key of the id. *)
Lemma get_paper_by_id_loaded page_cap papers table id :
  loaded_from papers table ->
  get_paper_by_id (ddb_query page_cap table) id
  = Ok (table !! ("PAPER#" +:+ id, "DETAIL")).
Proof.
  intros Hload. unfold get_paper_by_id.
  change (ddb_query page_cap table _)
    with (ddb_query page_cap table
            (with_start (paper_id_args id) (start_of (index_keys paper_id_index) []))).
  rewrite (ddb_query_page page_cap table (paper_id_args id) paper_id_index
             eq_refl eq_refl eq_refl []
             (walk table (index_keys paper_id_index) (paper_id_args id)) eq_refl).
  cbn [mbind Result_bind Items]. f_equal.
  rewrite list_fmap_id.
  pose proof (paper_id_selected papers table id) as Hsel.
  pose proof (selected_keys_NoDup (index_keys paper_id_index)
                (KeyConditionExpression (paper_id_args id)) table) as Hnd.
  unfold walk. cbn [KeyConditionExpression paper_id_args] in *.
  destruct (at_most_one ("DETAIL", ("PAPER#" +:+ id, "DETAIL")) _ Hnd) as [Hl|[x Hl]].
  { intros x Hx. now apply (Hsel x Hload). }
  - rewrite Hl in *. cbn. rewrite take_nil. cbn.
    destruct (table !! ("PAPER#" +:+ id, "DETAIL")) as [it|] eqn:E; [|done].
    exfalso.
    assert (Hin : (("DETAIL", ("PAPER#" +:+ id, "DETAIL")), it) ∈ @nil (OrderKey * Item))
      by now apply (Hsel _ Hload).
    now apply elem_of_nil in Hin.
  - rewrite Hl in *. cbn [sort_by insert_by].
    assert (Hx : x ∈ [x]) by left. apply (Hsel x Hload) in Hx as [_ Hx]. rewrite Hx.
    pose proof (page_size_pos page_cap (paper_id_args id) eq_refl).
    destruct (page_size page_cap (Limit (paper_id_args id))); [lia|]. done.
Qed.

Lemma loader_detail_lookup papers id it :
  write_all ∅ (all_items (project_all papers)) !! ("PAPER#" +:+ id, "DETAIL") = Some it ->
  ∃ p, p ∈ papers ∧ fstr (arxiv_id p) = id ∧ it = detail_item p.
Proof.
  intros Hit. destruct (loaded_from_loader papers _ _ Hit) as (Hk & p & Hp & Hin).
  symmetry in Hk. destruct (detail_key_inv _ _ _ Hin Hk) as [-> <-]. eauto.
Qed.

(** C4. On the table the loader makes of any corpus, the lookup by id
    succeeds for every id and returns no item or one item.  A returned item
    is the detail item of a paper of the corpus with that id, with the full
    payload and the type tag PAPER_DETAIL, never a category, author or
    keyword item; an item is returned whenever the corpus has a paper with
    the id, and none ([None]) when it has not. *)
Theorem get_paper_by_id_spec (page_cap : positive) (papers : list Paper) (id : string) :
  ∃ table s r,
    main ∅ papers = Ok (table, s)
    ∧ get_paper_by_id (ddb_query page_cap table) id = Ok r
    ∧ (∀ it, r = Some it ->
         ∃ p, p ∈ papers ∧ fstr (arxiv_id p) = id ∧ it = detail_item p
              ∧ it !! "item_type" = Some (VStr "PAPER_DETAIL")
              ∧ it !! "arxiv_id" = Some (v_opt (arxiv_id p))
              ∧ it !! "title" = Some (v_opt (title p))
              ∧ it !! "authors" = Some (VList (authors_of p))
              ∧ it !! "abstract" = Some (VStr (abstract_of p))
              ∧ it !! "categories" = Some (VList (categories_of p))
              ∧ it !! "keywords" = Some (VList (keywords_of p))
              ∧ it !! "published" = Some (v_opt (published p)))
    ∧ ((∃ p, p ∈ papers ∧ fstr (arxiv_id p) = id) -> is_Some r)
    ∧ ((∀ p, p ∈ papers -> fstr (arxiv_id p) ≠ id) -> r = None).
Proof.
  destruct (main_returns papers) as (s & _ & _ & Hmain).
  set (items := all_items (project_all papers)) in *.
  pose proof (loaded_from_loader papers) as Hload. fold items in Hload.
  pose proof (loader_detail_lookup papers id) as Hdetail. fold items in Hdetail.
  exists (write_all ∅ items), s, (write_all ∅ items !! ("PAPER#" +:+ id, "DETAIL")).
  split_and!.
  - apply Hmain.
  - now apply (get_paper_by_id_loaded page_cap papers).
  - intros it Hit. destruct (Hdetail it Hit) as (p & Hp & Hid & ->).
    exists p. split_and!; try done; reflexivity.
  - intros (p & Hp & Hid). rewrite lookup_write_all.
    assert (Hin : detail_item p ∈ items).
    { unfold items. rewrite all_items_project_all. apply elem_of_concat.
      exists (project_paper p). split; [now apply list_elem_of_fmap_2|left]. }
    apply last_write_is_Some in Hin as [it Hit].
    change (item_key (detail_item p)) with ("PAPER#" +:+ fstr (arxiv_id p), "DETAIL") in Hit.
    rewrite Hid in Hit. now rewrite Hit.
  - intros Hnone.
    destruct (write_all ∅ items !! ("PAPER#" +:+ id, "DETAIL")) as [it|] eqn:E; [|done].
    destruct (Hdetail it eq_refl) as (p & Hp & Hid & _). now apply Hnone in Hp.
Qed.

(** on the January table: one stored detail item, and an id never loaded *)
Example get_paper_by_id_january :
  get_paper_by_id (ddb_query 1 january_table) "2401.17001"
  = Ok (Some (detail_item paper_jan31))
  ∧ get_paper_by_id (ddb_query 1 january_table) "2401.99999" = Ok None.
Proof. split; compute_done. Qed.

(** ** Papers by keyword *)

Lemma top_k_keywords_tokens abstract k w :
  w ∈ top_k_keywords_from_abstract abstract k -> w ∈ tokenize abstract.
Proof.
  unfold top_k_keywords_from_abstract, most_common.
  intros (x & -> & Hx)%list_elem_of_fmap.
  apply elem_of_take in Hx as (i & Hx & _). apply list_elem_of_lookup_2 in Hx.
  rewrite mc_sort_perm in Hx.
  apply (Counter_spec (tokenize abstract)), list_elem_of_fmap. eauto.
Qed.

Lemma lower_char_lowercase c : Str.is_lower_az c = true -> Str.lower_char c = c.
Proof.
  destruct c as [[] [] [] [] [] [] [] []]; intros H;
    first [reflexivity | discriminate H].
Qed.

Lemma lower_lowercase w : lowercase_alpha w -> Str.lower w = w.
Proof.
  unfold lowercase_alpha. induction w as [|c w IH]; cbn; [done|].
  intros [Hc Hw]%andb_prop. now rewrite lower_char_lowercase, IH.
Qed.

Lemma keywords_lowercase p kw : kw ∈ keywords_of p -> Str.lower kw = kw.
Proof.
  intros Hkw%top_k_keywords_tokens. apply lower_lowercase.
  now apply (tokenize_spec _ _ Hkw).
Qed.

Lemma str_attr_project_key ix name it :
  name ∈ key_attrs (index_keys ix) ->
  str_attr name (project_item ix it) = str_attr name it.
Proof.
  intros Hn. unfold project_item. destruct (index_projection ix) as [attrs|]; [|done].
  unfold str_attr. rewrite map_lookup_filter.
  destruct (it !! name) as [v|]; cbn; [|done].
  rewrite option_guard_True; [done|]. cbn. apply elem_of_app. now right.
Qed.

(** what a keyword query returns comes from the partition of the
    lower-cased keyword *)
Lemma keyword_query_partition page_cap table keyword limit items it :
  query_papers_by_keyword (ddb_query page_cap table) keyword limit = Ok items ->
  it ∈ items ->
  str_attr "GSI2PK" it = Some ("KW#" +:+ Str.lower keyword).
Proof.
  unfold query_papers_by_keyword. intros Hq Hit.
  destruct (Z.ltb_spec limit 1) as [Hlt|Hge].
  - unfold ddb_query in Hq. cbn in Hq.
    apply Z.ltb_lt in Hlt. rewrite Hlt in Hq. done.
  - assert (Hlimit : from_option (fun n => n <? 1)%Z false (Limit (keyword_args keyword limit))
                     = false) by (cbn; now apply Z.ltb_ge).
    change (ddb_query page_cap table _)
      with (ddb_query page_cap table
              (with_start (keyword_args keyword limit)
                 (start_of (index_keys keyword_index) []))) in Hq.
    rewrite (ddb_query_page page_cap table (keyword_args keyword limit) keyword_index
               eq_refl eq_refl Hlimit []
               (walk table (index_keys keyword_index) (keyword_args keyword limit))
               eq_refl) in Hq.
    cbn [mbind Result_bind Items] in Hq. simplify_eq.
    apply list_elem_of_fmap in Hit as (it' & -> & (x & -> & Hx)%list_elem_of_fmap).
    apply elem_of_take in Hx as (i & Hx & _). apply list_elem_of_lookup_2 in Hx.
    apply elem_of_walk in Hx as (_ & _ & Hh & _).
    rewrite str_attr_project_key by (cbn; set_solver). exact Hh.
Qed.

(** C5. Two keywords that lower-case to the same string, as the casing
    variants of one keyword do, are answered alike by every store, since
    the executor lower-cases the keyword before it forms the partition key
    [KW#<keyword>] of the keyword index; what the table returns for them has
    that partition key; and the keyword items the loader writes carry
    lowercase keywords in their partition keys. *)
Theorem keyword_query_case_insensitive
    (query : QueryArgs -> Result QueryResponse) (w w' : string) (limit : Z) :
  Str.lower w = Str.lower w' ->
  query_papers_by_keyword query w limit = query_papers_by_keyword query w' limit
  ∧ (∀ page_cap table items it,
       query_papers_by_keyword (ddb_query page_cap table) w' limit = Ok items ->
       it ∈ items ->
       str_attr "GSI2PK" it = Some ("KW#" +:+ Str.lower w))
  ∧ (∀ p kw, kw ∈ keywords_of p ->
       kw_item p kw !! "GSI2PK" = Some (VStr ("KW#" +:+ kw)) ∧ Str.lower kw = kw).
Proof.
  intros Hw. split_and!.
  - unfold query_papers_by_keyword. now rewrite Hw.
  - intros page_cap table items it Hq Hit. rewrite Hw.
    eapply keyword_query_partition; eauto.
  - intros p kw Hkw. split; [reflexivity|]. now apply (keywords_lowercase p).
Qed.

Lemma keyword_query_case_insensitive_witness :
  Str.lower "Network" = Str.lower "network"
  ∧ query_papers_by_keyword (ddb_query 1 january_table) "Network" 20
    = query_papers_by_keyword (ddb_query 1 january_table) "network" 20.
Proof.
  split; [reflexivity|].
  exact (proj1 (keyword_query_case_insensitive
                  (ddb_query 1 january_table) "Network" "network" 20 eq_refl)).
Defined.

(** both spellings find the two papers of the January table about networks *)
Example keyword_query_january :
  match query_papers_by_keyword (ddb_query 5 january_table) "Network" 20 with
  | Ok items => (fun it => it !! "arxiv_id") <$> items
  | Raise _ => []
  end
  = [Some (VStr "2402.00002"); Some (VStr "2401.00003")].
Proof. compute_done. Qed.

(** ** Read API *)

Section Routes.
Variable query : QueryArgs -> Result QueryResponse.
Variable unquote : string -> string.
Variable int : string -> option Z.
Variables (fuel : nat) (req : Request).

Local Ltac by_route :=
  unfold route_of, try_GET; cbv zeta;
  repeat match goal with
    | |- context [bool_decide (path req = ?s)] =>
        destruct (bool_decide (path req = s)); try discriminate
    | |- context [Str.startswith ?s (path req)] =>
        destruct (Str.startswith s (path req)); try discriminate
    end;
  reflexivity.

Lemma try_GET_recent :
  route_of (path req) = RecentRoute ->
  try_GET query unquote int fuel req
  = match truthy_str (qs_first (qs req) "category") with
    | None => Some (Ok (send 400 (ErrorBody "missing category") []))
    | Some category =>
        match parse_limit int (qs_first (qs req) "limit") with
        | None => Some (Ok (send 400 (ErrorBody "invalid limit") []))
        | Some limit =>
            Some (
              items ← query_recent_in_category query category limit;
              Ok (send 200 (RecentBody category items (length items))
                       [("category", LStr category); ("limit", LInt limit)]))
        end
    end.
Proof. by_route. Qed.

Lemma try_GET_author :
  route_of (path req) = AuthorRoute ->
  try_GET query unquote int fuel req
  = let author_name := unquote (after_prefix "/papers/author/" (path req)) in
    if negb (Str.truthy author_name) then
      Some (Ok (send 400 (ErrorBody "missing author_name") []))
    else
      lift (query_papers_by_author query fuel author_name) (fun items =>
        Ok (send 200 (AuthorBody author_name items (length items))
                 [("author_name", LStr author_name)])).
Proof. by_route. Qed.

Lemma try_GET_keyword :
  route_of (path req) = KeywordRoute ->
  try_GET query unquote int fuel req
  = let keyword := unquote (after_prefix "/papers/keyword/" (path req)) in
    match parse_limit int (qs_first (qs req) "limit") with
    | None => Some (Ok (send 400 (ErrorBody "invalid limit") []))
    | Some limit =>
        if negb (Str.truthy keyword) then
          Some (Ok (send 400 (ErrorBody "missing keyword") []))
        else
          Some (
            items ← query_papers_by_keyword query keyword limit;
            Ok (send 200 (KeywordBody keyword items (length items))
                     [("keyword", LStr keyword); ("limit", LInt limit)]))
    end.
Proof. by_route. Qed.

Lemma try_GET_search :
  route_of (path req) = SearchRoute ->
  try_GET query unquote int fuel req
  = match truthy_str (qs_first (qs req) "category"),
          truthy_str (qs_first (qs req) "start"),
          truthy_str (qs_first (qs req) "end") with
    | Some category, Some start_date, Some end_date =>
        lift (query_papers_in_date_range query fuel category start_date end_date)
          (fun items =>
            Ok (send 200 (SearchBody category start_date end_date items (length items))
                     [("category", LStr category); ("start", LStr start_date);
                      ("end", LStr end_date)]))
    | _, _, _ => Some (Ok (send 400 (ErrorBody "missing category/start/end") []))
    end.
Proof. by_route. Qed.

Lemma try_GET_paper :
  route_of (path req) = PaperRoute ->
  try_GET query unquote int fuel req
  = let arxiv_id := after_prefix "/papers/" (path req) in
    if negb (Str.truthy arxiv_id) then
      Some (Ok (send 400 (ErrorBody "missing arxiv_id") []))
    else
      Some (
        item ← get_paper_by_id query (unquote arxiv_id);
        if negb (dict_truthy item) then
          Ok (send 404 (ErrorBody "not found") [("arxiv_id", LStr (unquote arxiv_id))])
        else
          Ok (send 200 (ItemBody (default ∅ item))
                   [("arxiv_id", LStr (unquote arxiv_id))])).
Proof. by_route. Qed.

Lemma try_GET_no_route :
  route_of (path req) = NoRoute ->
  try_GET query unquote int fuel req
  = Some (Ok (send 404 (ErrorBody "not found") [])).
Proof. by_route. Qed.
End Routes.

Local Ltac crunch_reply :=
  repeat first
    [ progress cbn [negb lift mbind Result_bind]
    | match goal with
      | |- context [match truthy_str ?o with _ => _ end] => destruct (truthy_str o)
      | |- context [match parse_limit ?i ?o with _ => _ end] => destruct (parse_limit i o)
      | |- context [negb (Str.truthy ?s)] => destruct (Str.truthy s)
      | |- context [negb (dict_truthy ?s)] => destruct (dict_truthy s)
      | |- context [lift ?m _] => destruct m as [[?|[?]]|]
      | |- context [mbind _ ?m] => destruct m as [?|[?]]
      end ].

(** A reply is one of 200, 400, 404 and 500; it is 500 exactly when the
    body of the [try] raised. *)
Lemma try_GET_status query unquote int fuel req r :
  try_GET query unquote int fuel req = Some (Ok r) ->
  status r = 200 ∨ status r = 400 ∨ status r = 404.
Proof.
  destruct (route_of (path req)) eqn:R.
  - rewrite try_GET_recent by done. crunch_reply; intros [= <-]; cbn; auto.
  - rewrite try_GET_author by done. cbv zeta. crunch_reply; intros [= <-]; cbn; auto.
  - rewrite try_GET_keyword by done. cbv zeta. crunch_reply; intros [= <-]; cbn; auto.
  - rewrite try_GET_search by done. crunch_reply; intros [= <-]; cbn; auto.
  - rewrite try_GET_paper by done. cbv zeta. crunch_reply; intros [= <-]; cbn; auto.
  - rewrite try_GET_no_route by done. intros [= <-]; cbn; auto.
Qed.

(** A 400 reply is decided before any query: every store gets the same. *)
Lemma reply_400_independent query query' unquote int fuel fuel' req r :
  do_GET query unquote int fuel req = Some r ->
  status r = 400 ->
  (∃ reason, payload r = ErrorBody reason)
  ∧ do_GET query' unquote int fuel' req = Some r.
Proof.
  unfold do_GET. destruct (route_of (path req)) eqn:R.
  - rewrite !try_GET_recent by done.
    crunch_reply; intros [= <-]; cbn; intros; try lia; eauto.
  - rewrite !try_GET_author by done. cbv zeta.
    crunch_reply; intros [= <-]; cbn; intros; try lia; eauto.
  - rewrite !try_GET_keyword by done. cbv zeta.
    crunch_reply; intros [= <-]; cbn; intros; try lia; eauto.
  - rewrite !try_GET_search by done.
    crunch_reply; intros [= <-]; cbn; intros; try lia; eauto.
  - rewrite !try_GET_paper by done. cbv zeta.
    crunch_reply; intros [= <-]; cbn; intros; try lia; eauto.
  - rewrite !try_GET_no_route by done. intros [= <-]; cbn; intros; lia.
Qed.

(** C9, as the code has it. For every GET request, every store, every URL
    decoder and every integer parser:
    - on each route, a missing required parameter (absent or empty) and a
      limit that is no integer are answered 400 with a body
      [{"error": reason}]; no other check of a parameter is made; any
      400 reply is the same for every store and every amount of fuel, a
      store that fails whenever it is reached included, so it does not
      depend on a query;
    - a path that matches no route is answered 404;
    - a lookup by id that finds no item, as on the loader's table for an
      id that no paper of the corpus has, is answered 404 with
      [{"error": "not found"}];
    - when the body of the [try] raises, whatever the exception, the reply
      is 500 with the body [{"error": "server error"}]; the exception text
      goes to the log line only, and every 500 reply has that body. *)
Theorem do_GET_error_replies
    (query : QueryArgs -> Result QueryResponse) (unquote : string -> string)
    (int : string -> option Z) (fuel : nat) (req : Request) :
  let reply := do_GET query unquote int fuel req in
  let bad reason := Some (send 400 (ErrorBody reason) []) in
  (route_of (path req) = RecentRoute ->
     (truthy_str (qs_first (qs req) "category") = None ->
        reply = bad "missing category")
     ∧ (is_Some (truthy_str (qs_first (qs req) "category")) ->
        parse_limit int (qs_first (qs req) "limit") = None ->
        reply = bad "invalid limit"))
  ∧ (route_of (path req) = AuthorRoute ->
     Str.truthy (unquote (after_prefix "/papers/author/" (path req))) = false ->
     reply = bad "missing author_name")
  ∧ (route_of (path req) = KeywordRoute ->
     (parse_limit int (qs_first (qs req) "limit") = None ->
        reply = bad "invalid limit")
     ∧ (is_Some (parse_limit int (qs_first (qs req) "limit")) ->
        Str.truthy (unquote (after_prefix "/papers/keyword/" (path req))) = false ->
        reply = bad "missing keyword"))
  ∧ (route_of (path req) = SearchRoute ->
     truthy_str (qs_first (qs req) "category") = None
     ∨ truthy_str (qs_first (qs req) "start") = None
     ∨ truthy_str (qs_first (qs req) "end") = None ->
     reply = bad "missing category/start/end")
  ∧ (route_of (path req) = PaperRoute ->
     Str.truthy (after_prefix "/papers/" (path req)) = false ->
     reply = bad "missing arxiv_id")
  ∧ (∀ r, reply = Some r -> status r = 400 ->
       (∃ reason, payload r = ErrorBody reason)
       ∧ ∀ query' fuel', do_GET query' unquote int fuel' req = Some r)
  ∧ (route_of (path req) = NoRoute ->
     reply = Some (send 404 (ErrorBody "not found") []))
  ∧ (route_of (path req) = PaperRoute ->
     Str.truthy (after_prefix "/papers/" (path req)) = true ->
     get_paper_by_id query (unquote (after_prefix "/papers/" (path req))) = Ok None ->
     reply = Some (send 404 (ErrorBody "not found")
                     [("arxiv_id", LStr (unquote (after_prefix "/papers/" (path req))))]))
  ∧ (∀ page_cap papers,
       route_of (path req) = PaperRoute ->
       Str.truthy (after_prefix "/papers/" (path req)) = true ->
       (∀ p, p ∈ papers ->
          fstr (arxiv_id p) ≠ unquote (after_prefix "/papers/" (path req))) ->
       do_GET (ddb_query page_cap (write_all ∅ (all_items (project_all papers))))
         unquote int fuel req
       = Some (send 404 (ErrorBody "not found")
                 [("arxiv_id", LStr (unquote (after_prefix "/papers/" (path req))))]))
  ∧ (∀ detail, try_GET query unquote int fuel req = Some (Raise (Exc detail)) ->
       reply = Some (send 500 (ErrorBody "server error") [("exception", LStr detail)]))
  ∧ (∀ r, reply = Some r -> status r = 500 ->
       payload r = ErrorBody "server error"
       ∧ ∃ detail, try_GET query unquote int fuel req = Some (Raise (Exc detail))).
Proof.
  cbv zeta. unfold do_GET. split_and!.
  - intros R. rewrite try_GET_recent by done. split.
    + now intros ->.
    + intros [c ->] ->. done.
  - intros R Ha. rewrite try_GET_author by done. cbv zeta. now rewrite Ha.
  - intros R. rewrite try_GET_keyword by done. cbv zeta. split.
    + now intros ->.
    + intros [l ->] ->. done.
  - intros R Hm. rewrite try_GET_search by done.
    destruct Hm as [-> |[Hm|Hm]]; [done|..];
      destruct (truthy_str (qs_first (qs req) "category")); [|done| |done];
      rewrite Hm; [done|]. now destruct (truthy_str (qs_first (qs req) "start")).
  - intros R Ha. rewrite try_GET_paper by done. cbv zeta. now rewrite Ha.
  - intros r Hr Hs. split.
    + eapply (reply_400_independent query query); eauto.
    + intros query' fuel'. eapply (reply_400_independent query query'); eauto.
  - intros R. now rewrite try_GET_no_route.
  - intros R Ha Hq. rewrite try_GET_paper by done. cbv zeta. now rewrite Ha, Hq.
  - intros page_cap papers R Ha Hnone. rewrite try_GET_paper by done. cbv zeta.
    rewrite Ha, (get_paper_by_id_loaded page_cap papers) by apply loaded_from_loader.
    destruct (write_all ∅ (all_items (project_all papers))
                !! ("PAPER#" +:+ unquote (after_prefix "/papers/" (path req)), "DETAIL"))
      as [it|] eqn:E; [|done].
    apply loader_detail_lookup in E as (p & Hp & Hid & _). now apply Hnone in Hp.
  - now intros detail ->.
  - intros r Hr Hs.
    destruct (try_GET query unquote int fuel req) as [[r'|[detail]]|] eqn:E; [| |done].
    + simplify_eq. apply try_GET_status in E. lia.
    + simplify_eq. split; [done|eauto].
Qed.

(** replies of the January table and of a failing store *)
Example do_GET_replies :
  let GET store path qs :=
    do_GET store (fun s => s) decimal_int 20 {| path := path; qs := qs |} in
  GET (failing_store "boom") "/papers/recent" [("limit", ("5", []))]
  = Some (send 400 (ErrorBody "missing category") [])
  ∧ GET (failing_store "boom") "/papers/keyword/graph" [("limit", ("many", []))]
    = Some (send 400 (ErrorBody "invalid limit") [])
  ∧ GET (failing_store "boom") "/papers/" [] = Some (send 400 (ErrorBody "missing arxiv_id") [])
  ∧ GET (failing_store "boom") "/paper" [] = Some (send 404 (ErrorBody "not found") [])
  ∧ GET (ddb_query 1 january_table) "/papers/2401.99999" []
    = Some (send 404 (ErrorBody "not found") [("arxiv_id", LStr "2401.99999")])
  ∧ GET (ddb_query 1 january_table) "/papers/2401.17001" []
    = Some (send 200 (ItemBody (detail_item paper_jan31))
              [("arxiv_id", LStr "2401.17001")])
  ∧ GET (failing_store "boom") "/papers/2401.17001" []
    = Some (send 500 (ErrorBody "server error") [("exception", LStr "boom")])
  ∧ GET (ddb_query 1 january_table) "/papers/recent"
        [("category", ("cs.LG", [])); ("limit", ("0", []))]
    = Some (send 500 (ErrorBody "server error")
              [("exception", LStr "ParamValidationError")]).
Proof. cbv zeta. split_and!; compute_done. Qed.

(** C9, as stated, fails for a malformed required parameter other than a
    missing one: a search whose start and end are no dates is not rejected.
    The query is issued (a failing store turns the reply into 500) and its
    result is answered 200. *)
Lemma malformed_dates_not_rejected :
  route_of (path search_without_dates) = SearchRoute
  ∧ do_GET (ddb_query 1 january_table) (fun s => s) decimal_int 20 search_without_dates
    = Some (send 200 (SearchBody "cs.LG" "today" "tomorrow" [] 0)
              [("category", LStr "cs.LG"); ("start", LStr "today");
               ("end", LStr "tomorrow")])
  ∧ do_GET (failing_store "boom") (fun s => s) decimal_int 20 search_without_dates
    = Some (send 500 (ErrorBody "server error") [("exception", LStr "boom")]).
Proof. split_and!; compute_done. Qed.

(** * Further properties of the loader *)

(** ** Keyword extractor *)

Lemma top_k_keywords_NoDup abstract k : NoDup (top_k_keywords_from_abstract abstract k).
Proof.
  unfold top_k_keywords_from_abstract, most_common. rewrite fmap_take.
  pose proof (Counter_spec (tokenize abstract)) as (Hnd & _).
  rewrite <- (mc_sort_perm (Counter (tokenize abstract))) in Hnd.
  rewrite <- (take_drop k (mc_sort (Counter (tokenize abstract))).*1) in Hnd.
  now apply NoDup_app in Hnd as [Hnd _].
Qed.

Lemma top_k_keywords_length abstract k :
  length (top_k_keywords_from_abstract abstract k) ≤ k.
Proof.
  unfold top_k_keywords_from_abstract, most_common.
  rewrite length_fmap, length_take. lia.
Qed.

Lemma Counter_length l : length (Counter l) = length (remove_dups l).
Proof.
  destruct (Counter_spec l) as (Hnd & Hkeys & _).
  rewrite <- (length_fmap fst). apply Permutation_length.
  apply NoDup_Permutation; [done|apply NoDup_remove_dups|].
  intros x. now rewrite Hkeys, elem_of_remove_dups.
Qed.

(** X1. The extractor returns the k most frequent tokens: the number of
    keywords is k or, when the text has fewer, the number of distinct tokens
    of the text; a token of the text that is not returned occurs no more
    often than any keyword that is; and when the text has at most k distinct
    tokens every one of them is returned. *)
Theorem top_k_keywords_most_frequent (abstract : option string) (k : nat) :
  let toks := tokenize abstract in
  let out := top_k_keywords_from_abstract abstract k in
  length out = Nat.min k (length (remove_dups toks))
  ∧ (∀ w v, w ∈ toks -> w ∉ out -> v ∈ out ->
       occurrences w toks ≤ occurrences v toks)
  ∧ (length (remove_dups toks) ≤ k -> ∀ w, w ∈ toks -> w ∈ out).
Proof.
  cbv zeta. unfold top_k_keywords_from_abstract, most_common.
  set (toks := tokenize abstract). set (sorted := mc_sort (Counter toks)).
  destruct (Counter_spec toks) as (Hnd & Hkeys & Hcnt & Hord).
  assert (Hlen : length sorted = length (remove_dups toks)).
  { unfold sorted. now rewrite mc_sort_perm, Counter_length. }
  assert (Hin : ∀ w, w ∈ toks -> ∃ n, (w, n) ∈ sorted).
  { intros w Hw. apply Hkeys in Hw. apply list_elem_of_fmap in Hw as ([w' n] & -> & Hw).
    exists n. unfold sorted. now rewrite mc_sort_perm. }
  assert (Hocc : ∀ x, x ∈ sorted -> x.2 = occurrences x.1 toks).
  { intros [w n] Hx. unfold sorted in Hx. rewrite mc_sort_perm in Hx. now apply Hcnt. }
  split_and!.
  - rewrite length_fmap, length_take, Hlen. lia.
  - intros w v Hw Hout (y & -> & Hy)%list_elem_of_fmap.
    destruct (Hin w Hw) as [n Hn].
    assert (Hdrop : (w, n) ∈ drop k sorted).
    { rewrite <- (take_drop k sorted) in Hn. apply elem_of_app in Hn as [Hn|Hn]; [|done].
      exfalso. apply Hout. apply list_elem_of_fmap. now exists (w, n). }
    pose proof (mc_sort_sorted (fun w => first_index w toks) _ Hord) as Hs.
    fold sorted in Hs. rewrite <- (take_drop k sorted) in Hs.
    apply StronglySorted_app in Hs as (Hs & _ & _).
    specialize (Hs _ _ Hy Hdrop).
    assert (Hy' : y ∈ sorted)
      by (rewrite <- (take_drop k sorted); apply elem_of_app; now left).
    assert (Hw' : (w, n) ∈ sorted)
      by (rewrite <- (take_drop k sorted); apply elem_of_app; now right).
    pose proof (Hocc _ Hy') as E1. pose proof (Hocc _ Hw') as E2. cbn in E2.
    rewrite <- E1, <- E2. unfold ranks_before in Hs. cbn in Hs. lia.
  - intros Hk w Hw. destruct (Hin w Hw) as [n Hn].
    rewrite take_ge by lia. apply list_elem_of_fmap. now exists (w, n).
Qed.

Lemma lower_char_idemp c : Str.lower_char (Str.lower_char c) = Str.lower_char c.
Proof. destruct c as [[] [] [] [] [] [] [] []]; reflexivity. Qed.

Lemma lower_idemp s : Str.lower (Str.lower s) = Str.lower s.
Proof. induction s as [|c s IH]; cbn; [done|]. now rewrite lower_char_idemp, IH. Qed.

Lemma lower_append a b : Str.lower (a +:+ b) = Str.lower a +:+ Str.lower b.
Proof.
  induction a as [|c a IH]; [done|]. rewrite append_cons. cbn [Str.lower].
  now rewrite append_cons, IH.
Qed.

Lemma lower_char_letter c :
  Str.is_letter (Str.lower_char c) = Str.is_letter c.
Proof. destruct c as [[] [] [] [] [] [] [] []]; reflexivity. Qed.

Lemma findall_letters_separator a c b : forall cur,
  Str.is_letter c = false ->
  findall_letters cur (a +:+ String c b)
  = findall_letters cur a ++ findall_letters "" b.
Proof.
  induction a as [|x a IH]; intros cur Hc.
  - change ("" +:+ String c b) with (String c b). cbn. now rewrite Hc.
  - rewrite append_cons. cbn [findall_letters].
    destruct (Str.is_letter x); [now apply IH|].
    rewrite IH by done. now rewrite app_assoc.
Qed.

(** X2. Keyword extraction does not depend on the casing of the text, and
    it reads a text piece by piece.  The text is lower-cased before the
    runs of letters are taken, so what separates is a character whose
    lower-case form is no letter of [a-zA-Z]: it separates the tokens before
    it from the tokens after it.  (A character that is no letter itself but
    lower-cases to one, as the Kelvin sign U+212A does outside the range of
    these strings, joins its neighbours instead.) *)
Theorem tokenize_casing_and_separators (a b : string) (c : ascii) :
  tokenize (Some (Str.lower a)) = tokenize (Some a)
  ∧ (∀ k, top_k_keywords_from_abstract (Some (Str.lower a)) k
          = top_k_keywords_from_abstract (Some a) k)
  ∧ (Str.is_letter (Str.lower_char c) = false ->
     tokenize (Some (a +:+ String c b)) = tokenize (Some a) ++ tokenize (Some b)).
Proof.
  assert (H1 : tokenize (Some (Str.lower a)) = tokenize (Some a))
    by (unfold tokenize; cbn; now rewrite lower_idemp).
  split_and!; [done| |].
  - intros k. unfold top_k_keywords_from_abstract. now rewrite H1.
  - intros Hc. unfold tokenize, or_empty, default. cbn [from_option id].
    rewrite lower_append. cbn [Str.lower].
    rewrite findall_letters_separator by done.
    apply filter_app.
Qed.

(** ** Item projector *)

Lemma kw_items_fresh p (l : list string) : forall seen,
  NoDup l -> (∀ kw, kw ∈ l -> kw ∉ seen) ->
  kw_items p seen l = kw_item p <$> l.
Proof.
  induction l as [|kw l IH]; intros seen Hnd Hseen; [done|].
  apply NoDup_cons in Hnd as [Hkw Hnd]. cbn [kw_items fmap list_fmap].
  rewrite decide_False by (apply Hseen; left). f_equal.
  apply IH; [done|]. intros x Hx [->%elem_of_singleton|Hs]%elem_of_union; [done|].
  apply (Hseen x); [now right|done].
Qed.

Lemma kw_items_keywords p : kw_items p ∅ (keywords_of p) = kw_item p <$> keywords_of p.
Proof.
  apply kw_items_fresh; [apply top_k_keywords_NoDup|].
  intros kw _. apply not_elem_of_empty.
Qed.

Lemma kw_item_inj p : Inj (=) (=) (kw_item p).
Proof.
  intros k1 k2 H.
  assert (Hpk : kw_item p k1 !! "PK" = kw_item p k2 !! "PK") by now rewrite H.
  change (Some (VStr ("KEYWORDITEM#" +:+ k1)) = Some (VStr ("KEYWORDITEM#" +:+ k2))) in Hpk.
  simplify_eq. done.
Qed.

(** X3. The keywords of a paper are pairwise distinct, so the [seen_kw]
    check of the projector never skips one: a paper gets exactly one
    KeywordItem per extracted keyword, in the order of the keyword list, at
    most 10 of them and no two alike; each carries the keyword in its
    primary partition key and in the partition key of the keyword index. *)
Theorem keyword_items_one_per_keyword (p : Paper) :
  kw_items p ∅ (keywords_of p) = kw_item p <$> keywords_of p
  ∧ length (kw_items p ∅ (keywords_of p)) = length (keywords_of p)
  ∧ length (kw_items p ∅ (keywords_of p)) ≤ 10
  ∧ NoDup (kw_items p ∅ (keywords_of p))
  ∧ (∀ kw, kw_item p kw !! "PK" = Some (VStr ("KEYWORDITEM#" +:+ kw))
           ∧ kw_item p kw !! "GSI2PK" = Some (VStr ("KW#" +:+ kw))
           ∧ kw_item p kw !! "item_type" = Some (VStr "KEYWORD_ITEM")).
Proof.
  rewrite kw_items_keywords, length_fmap. split_and!.
  - done.
  - done.
  - apply top_k_keywords_length.
  - apply NoDup_fmap_2; [apply kw_item_inj|apply top_k_keywords_NoDup].
  - intros kw. split_and!; reflexivity.
Qed.

Lemma filter_category_of_categories p (l : list string) :
  filter is_category_item (cat_item p <$> l) = cat_item p <$> l.
Proof.
  induction l as [|c l IH]; [done|]. cbn [fmap list_fmap].
  rewrite filter_cons_True by reflexivity. now rewrite IH.
Qed.

Lemma filter_category_of_authors p (l : list string) :
  filter is_category_item (author_item p <$> l) = [].
Proof.
  induction l as [|c l IH]; [done|]. cbn [fmap list_fmap].
  now rewrite filter_cons_False by (intros H; vm_compute in H; congruence).
Qed.

Lemma filter_category_of_keywords p (l : list string) :
  filter is_category_item (kw_item p <$> l) = [].
Proof.
  induction l as [|c l IH]; [done|]. cbn [fmap list_fmap].
  now rewrite filter_cons_False by (intros H; vm_compute in H; congruence).
Qed.

(** X4. A paper with N categories is projected to exactly N CategoryItems,
    one per entry of the category list and in its order; each lies in the
    partition [CATEGORY#<category>], has the sort key [<date>#<id>] that
    ends in the paper's id, and carries the payload of the paper. *)
Theorem category_items_one_per_entry (p : Paper) :
  filter is_category_item (project_paper p) = cat_item p <$> categories_of p
  ∧ length (filter is_category_item (project_paper p)) = length (categories_of p)
  ∧ (∀ cat, cat_item p cat !! "PK" = Some (VStr ("CATEGORY#" +:+ cat))
            ∧ cat_item p cat !! "SK"
              = Some (VStr (published_date p +:+ "#" +:+ fstr (arxiv_id p)))
            ∧ cat_item p cat !! "arxiv_id" = Some (v_opt (arxiv_id p))
            ∧ cat_item p cat !! "title" = Some (v_opt (title p))
            ∧ cat_item p cat !! "authors" = Some (VList (authors_of p))
            ∧ cat_item p cat !! "abstract" = Some (VStr (abstract_of p))
            ∧ cat_item p cat !! "keywords" = Some (VList (keywords_of p)))
  ∧ (∀ c1 c2, c1 ≠ c2 -> cat_item p c1 ≠ cat_item p c2).
Proof.
  assert (H : filter is_category_item (project_paper p) = cat_item p <$> categories_of p).
  { unfold project_paper.
    rewrite filter_cons_False by (intros H; vm_compute in H; congruence).
    rewrite !filter_app, kw_items_keywords, filter_category_of_categories,
      filter_category_of_authors, filter_category_of_keywords.
    now rewrite app_nil_r. }
  rewrite H. split_and!.
  - done.
  - now rewrite length_fmap.
  - intros cat. split_and!; reflexivity.
  - intros c1 c2 Hne Heq. apply Hne.
    assert (Hpk : cat_item p c1 !! "PK" = cat_item p c2 !! "PK") by now rewrite Heq.
    change (Some (VStr ("CATEGORY#" +:+ c1)) = Some (VStr ("CATEGORY#" +:+ c2))) in Hpk.
    now simplify_eq.
Qed.

(** ** Loader summary *)

Lemma counts_fold ps : forall st,
  let c := counts (fold_left load_step ps st) in
  paper_detail_items c = paper_detail_items (counts st) + length ps
  ∧ category_items c
    = category_items (counts st) + sum_of (fun p => length (categories_of p)) ps
  ∧ author_items c
    = author_items (counts st) + sum_of (fun p => length (authors_of p)) ps
  ∧ keyword_items c
    = keyword_items (counts st) + sum_of (fun p => length (keywords_of p)) ps.
Proof.
  induction ps as [|p ps IH]; intros st; cbn [fold_left length sum_of].
  - cbv zeta. lia.
  - specialize (IH (load_step st p)). cbv zeta in *.
    destruct IH as (-> & -> & -> & ->). cbn [load_step counts paper_detail_items
      category_items author_items keyword_items].
    rewrite kw_items_keywords, length_fmap. lia.
Qed.

Lemma concat_length {A} (ls : list (list A)) :
  length (concat ls) = sum_of length ls.
Proof. induction ls as [|l ls IH]; cbn; [done|]. rewrite length_app, IH. done. Qed.

Lemma sum_of_fmap {A B} (f : B -> nat) (g : A -> B) (l : list A) :
  sum_of f (g <$> l) = sum_of (fun x => f (g x)) l.
Proof. induction l as [|x l IH]; cbn; [done|]. now rewrite IH. Qed.

Lemma sum_of_plus {A} (f g : A -> nat) (l : list A) :
  sum_of (fun x => f x + g x) l = sum_of f l + sum_of g l.
Proof. induction l as [|x l IH]; cbn; [done|]. rewrite IH. lia. Qed.

Lemma sum_of_const {A} (l : list A) : sum_of (fun _ => 1) l = length l.
Proof. induction l as [|x l IH]; cbn; [done|]. now rewrite IH. Qed.

Lemma write_all_size items : forall table : Table,
  size (write_all table items) ≤ size table + length items.
Proof.
  unfold write_all. induction items as [|it items IH]; intros table; cbn; [lia|].
  etrans; [apply IH|]. rewrite map_size_insert.
  destruct (table !! item_key it); cbn; lia.
Qed.

Lemma main_eq table ps :
  main table ps
  = Ok (write_all table (all_items (project_all ps)),
        {| loaded_papers := length ps;
           created_items := sum_counts (counts (project_all ps));
           denorm_factor :=
             if length ps =? 0 then 0 # 1
             else Z.of_nat (sum_counts (counts (project_all ps))) # Pos.of_nat (length ps);
           breakdown := counts (project_all ps) |}).
Proof.
  unfold main. rewrite main_writes. cbn [mbind Result_bind].
  pose proof (total_papers_fold ps init_state) as Hn. fold (project_all ps) in Hn.
  cbn in Hn. rewrite Hn. destruct (length ps) as [|n]; reflexivity.
Qed.

(** X5. The figures of the loader's summary: the number of papers is the
    size of the corpus; the number of items is the number of derived items,
    which is the number of items written and the sum of the four counters;
    the counters are the number of papers and the total numbers of category
    entries, author entries and keywords; the table grows by at most the
    number of items; and for a corpus that is not empty the ratio is the
    number of items over the number of papers. *)
Theorem loader_summary_figures (table : Table) (papers : list Paper) :
  ∃ table' s,
    main table papers = Ok (table', s)
    ∧ loaded_papers s = length papers
    ∧ created_items s = length (all_items (project_all papers))
    ∧ created_items s = sum_counts (breakdown s)
    ∧ paper_detail_items (breakdown s) = length papers
    ∧ category_items (breakdown s) = sum_of (fun p => length (categories_of p)) papers
    ∧ author_items (breakdown s) = sum_of (fun p => length (authors_of p)) papers
    ∧ keyword_items (breakdown s) = sum_of (fun p => length (keywords_of p)) papers
    ∧ keyword_items (breakdown s) ≤ 10 * length papers
    ∧ size table' ≤ size table + created_items s
    ∧ (papers ≠ [] ->
       denorm_factor s = Z.of_nat (created_items s) # Pos.of_nat (length papers)).
Proof.
  eexists _, _. split; [apply main_eq|].
  cbn [loaded_papers created_items breakdown denorm_factor].
  pose proof (counts_fold papers init_state) as Hc. fold (project_all papers) in Hc.
  cbv zeta in Hc. cbn [init_state counts paper_detail_items category_items
    author_items keyword_items] in Hc. destruct Hc as (Hd & Hcat & Hau & Hkw).
  assert (Hlen : sum_counts (counts (project_all papers))
                 = length (all_items (project_all papers))).
  { rewrite all_items_project_all, concat_length, sum_of_fmap.
    unfold sum_counts. rewrite Hd, Hcat, Hau, Hkw. cbn [Nat.add].
    rewrite <- (sum_of_const papers), <- !sum_of_plus.
    clear. induction papers as [|p ps IH]; cbn [sum_of]; [done|].
    rewrite IH. f_equal. unfold project_paper. cbn [length].
    rewrite !length_app, !length_fmap, kw_items_keywords, length_fmap. lia. }
  split_and!; try done.
  - rewrite Hkw. cbn [Nat.add]. clear.
    induction papers as [|p ps IH]; cbn [sum_of length]; [lia|].
    pose proof (top_k_keywords_length (Some (abstract_of p)) 10) as Hk.
    fold (keywords_of p) in Hk. lia.
  - rewrite Hlen. apply write_all_size.
  - intros Hne. destruct papers; [done|]. reflexivity.
Qed.

(** ** Keys of the items of one paper *)

Lemma item_key_detail p : item_key (detail_item p) = ("PAPER#" +:+ fstr (arxiv_id p), "DETAIL").
Proof. reflexivity. Qed.

Lemma item_key_cat p c : item_key (cat_item p c) = ("CATEGORY#" +:+ c, date_id p).
Proof. reflexivity. Qed.

Lemma item_key_author p a : item_key (author_item p a) = ("AUTHORITEM#" +:+ a, date_id p).
Proof. reflexivity. Qed.

Lemma item_key_kw p k : item_key (kw_item p k) = ("KEYWORDITEM#" +:+ k, date_id p).
Proof. reflexivity. Qed.

Lemma project_paper_keys p :
  item_key <$> project_paper p
  = ("PAPER#" +:+ fstr (arxiv_id p), "DETAIL")
    :: ((fun c => ("CATEGORY#" +:+ c, date_id p)) <$> categories_of p)
    ++ ((fun a => ("AUTHORITEM#" +:+ a, date_id p)) <$> authors_of p)
    ++ ((fun k => ("KEYWORDITEM#" +:+ k, date_id p)) <$> keywords_of p).
Proof.
  unfold project_paper. rewrite kw_items_keywords.
  rewrite fmap_cons, !fmap_app, <- !list_fmap_compose. done.
Qed.

Lemma write_all_size_fresh items : forall table : Table,
  NoDup (item_key <$> items) ->
  (∀ it, it ∈ items -> table !! item_key it = None) ->
  size (write_all table items) = size table + length items.
Proof.
  unfold write_all. induction items as [|it items IH]; intros table Hnd Hfresh; cbn; [lia|].
  cbn in Hnd. apply NoDup_cons in Hnd as [Hit Hnd].
  rewrite IH; [|done|].
  - rewrite map_size_insert_None by (apply Hfresh; left). lia.
  - intros x Hx. rewrite lookup_insert_ne; [apply Hfresh; now right|].
    intros Heq. apply Hit. rewrite Heq. now apply list_elem_of_fmap_2.
Qed.

(** X6. The items of one paper do not overwrite each other unless the
    paper repeats a category or an author: when its categories and its
    authors are pairwise distinct, the primary keys of its items are, and
    loading the paper into an empty table stores all 1 + N + M + K of them. *)
Theorem paper_items_distinct_keys (p : Paper) :
  NoDup (categories_of p) ->
  NoDup (authors_of p) ->
  NoDup (item_key <$> project_paper p)
  ∧ size (write_all ∅ (project_paper p))
    = 1 + length (categories_of p) + length (authors_of p) + length (keywords_of p).
Proof.
  intros Hc Ha.
  assert (Hnd : NoDup (item_key <$> project_paper p)).
  { rewrite project_paper_keys.
    apply NoDup_cons. split.
    { rewrite !elem_of_app, !list_elem_of_fmap.
      intros [(x & H & _)|[(x & H & _)|(x & H & _)]]; injection H as H _; discriminate H. }
    apply NoDup_app. split_and!.
    - apply NoDup_fmap_2; [|done]. intros x y H. injection H as H. now apply (inj _) in H.
    - intros k (c & -> & _)%list_elem_of_fmap.
      rewrite elem_of_app, !list_elem_of_fmap.
      intros [(x & H & _)|(x & H & _)]; injection H as H; discriminate H.
    - apply NoDup_app. split_and!.
      + apply NoDup_fmap_2; [|done]. intros x y H. injection H as H. now apply (inj _) in H.
      + intros k (c & -> & _)%list_elem_of_fmap.
        rewrite list_elem_of_fmap. intros (x & H & _). injection H as H. discriminate H.
      + apply NoDup_fmap_2; [|apply top_k_keywords_NoDup].
        intros x y H. injection H as H. now apply (inj _) in H. }
  split; [done|].
  rewrite write_all_size_fresh; [|done|intros; apply lookup_empty].
  rewrite map_size_empty. unfold project_paper. cbn [length].
  rewrite !length_app, !length_fmap, kw_items_keywords, length_fmap. lia.
Qed.

Lemma paper_items_distinct_keys_witness :
  NoDup (categories_of paper_jan31) ∧ NoDup (authors_of paper_jan31)
  ∧ size (write_all ∅ (project_paper paper_jan31)) = 9.
Proof.
  assert (Hc : NoDup (categories_of paper_jan31)) by compute_done.
  assert (Ha : NoDup (authors_of paper_jan31)) by compute_done.
  split_and!; [done..|].
  exact (proj2 (paper_items_distinct_keys paper_jan31 Hc Ha)).
Defined.

(** ** Batches *)

Lemma range_from_lookup stop fuel : forall i j,
  stop - i ≤ fuel ->
  range_from fuel i stop 25 !! j
  = if i + 25 * j <? stop then Some (i + 25 * j) else None.
Proof.
  induction fuel as [|fuel IH]; intros i j Hf; cbn [range_from].
  - rewrite lookup_nil. destruct (Nat.ltb_spec (i + 25 * j) stop); [lia|done].
  - destruct (Nat.ltb_spec i stop) as [Hi|Hi].
    + destruct j as [|j]; cbn [lookup list_lookup].
      * replace (i + 25 * 0) with i by lia.
        destruct (Nat.ltb_spec i stop); [done|lia].
      * rewrite IH by lia. replace (i + 25 + 25 * j) with (i + 25 * S j) by lia. done.
    + rewrite lookup_nil. destruct (Nat.ltb_spec (i + 25 * j) stop); [lia|done].
Qed.

Lemma batches_lookup (items : list Item) j :
  batches items !! j
  = if 25 * j <? length items then Some (take 25 (drop (25 * j) items)) else None.
Proof.
  unfold batches, py_range. rewrite list_lookup_fmap, range_from_lookup by lia.
  cbn [Nat.add]. now destruct (25 * j <? length items).
Qed.

(** X7. The store writer makes ceil(n / 25) batches of n items, none of
    them empty: batch j holds the items 25 j .. 25 j + 24, every batch but
    the last holds exactly 25 items, and for no items no batch is written. *)
Theorem batches_shape (items : list Item) :
  length (batches items) = (length items + 24) / 25
  ∧ (∀ j b, batches items !! j = Some b ->
       b = take 25 (drop (25 * j) items)
       ∧ 0 < length b
       ∧ (S j < length (batches items) -> length b = 25))
  ∧ (items = [] -> batches items = []).
Proof.
  assert (Hlt : ∀ j, j < length (batches items) <-> 25 * j < length items).
  { intros j. rewrite <- lookup_lt_is_Some, batches_lookup.
    destruct (Nat.ltb_spec (25 * j) (length items)); split; intros H';
      [done|eauto|now destruct H'|lia]. }
  split_and!.
  - set (L := length (batches items)) in *.
    assert (H1 : length items ≤ 25 * L) by (pose proof (Hlt L); lia).
    assert (H2 : L = 0 ∨ 25 * (L - 1) < length items).
    { destruct L as [|L']; [now left|right]. apply Hlt. lia. }
    apply Nat.div_unique with (r := length items + 24 - 25 * L); lia.
  - intros j b Hb. rewrite batches_lookup in Hb.
    destruct (Nat.ltb_spec (25 * j) (length items)) as [Hj|Hj]; [|done].
    injection Hb as <-. split_and!; [done|..].
    + rewrite length_take, length_drop. lia.
    + intros Hs. apply Hlt in Hs. rewrite length_take, length_drop. lia.
  - now intros ->.
Qed.

(** ** Dates and sort keys *)

Lemma take_length n : forall s, String.length (Str.take n s) = Nat.min n (String.length s).
Proof.
  induction n as [|n IH]; intros [|c s]; cbn; try done. now rewrite IH.
Qed.

Lemma take_drop_string n : forall s, Str.take n s +:+ Str.drop n s = s.
Proof.
  induction n as [|n IH]; intros [|c s]; cbn; try done.
  rewrite append_cons. now rewrite IH.
Qed.

Lemma take_idemp n s : Str.take n (Str.take n s) = Str.take n s.
Proof.
  revert s. induction n as [|n IH]; intros [|c s]; cbn; try done. now rewrite IH.
Qed.

(** X8. The date of a sort key is the first 10 characters of the
    publication timestamp: the timestamp is that date followed by the rest,
    the date of a date is the date itself, and the date has 10 characters
    whenever the timestamp has at least 10; a missing or empty timestamp
    gives the 10 characters 0000-00-00.  A date is never empty. *)
Theorem published_date_shape (p : Paper) :
  (∀ iso, iso = iso_to_date_str iso +:+ Str.drop 10 iso
          ∧ String.length (iso_to_date_str iso) = Nat.min 10 (String.length iso)
          ∧ iso_to_date_str (iso_to_date_str iso) = iso_to_date_str iso)
  ∧ (∀ iso, published p = Some iso -> Str.truthy iso = true ->
            published_date p = iso_to_date_str iso)
  ∧ (published p = None ∨ published p = Some "" -> published_date p = "0000-00-00")
  ∧ (published p = None
     ∨ published p = Some ""
     ∨ (∃ iso, published p = Some iso ∧ 10 ≤ String.length iso) ->
     String.length (published_date p) = 10)
  ∧ Str.truthy (published_date p) = true.
Proof.
  split_and!.
  - intros iso. unfold iso_to_date_str. split_and!.
    + symmetry. apply take_drop_string.
    + apply take_length.
    + apply take_idemp.
  - intros iso Hp Ht. unfold published_date. now rewrite Hp, Ht.
  - unfold published_date. now intros [-> | ->].
  - unfold published_date. intros [-> |[-> |(iso & -> & Hlen)]]; [done..|].
    destruct (Str.truthy iso) eqn:E; [|done].
    unfold iso_to_date_str. rewrite take_length. lia.
  - unfold published_date. destruct (published p) as [iso|]; [|done].
    destruct iso as [|c iso]; done.
Qed.

(** X9. Sort keys put the date before the id: for two papers whose dates
    have the same length, as all dates cut from full timestamps have, the
    sort keys [<date>#<id>] compare as the dates do and, on the same date,
    as the ids do; so within a partition items are in chronological order
    and papers of one day are in the order of their ids. *)
Theorem sort_keys_chronological (p q : Paper) :
  String.length (published_date p) = String.length (published_date q) ->
  String.compare (date_id p) (date_id q)
  = lex (String.compare (published_date p) (published_date q))
        (String.compare (fstr (arxiv_id p)) (fstr (arxiv_id q)))
  ∧ (String.compare (published_date p) (published_date q) = Lt ->
     String.compare (date_id p) (date_id q) = Lt)
  ∧ (published_date p = published_date q ->
     String.compare (date_id p) (date_id q)
     = String.compare (fstr (arxiv_id p)) (fstr (arxiv_id q)))
  ∧ (date_id p = date_id q ->
     published_date p = published_date q ∧ fstr (arxiv_id p) = fstr (arxiv_id q)).
Proof.
  intros Hlen.
  assert (H : String.compare (date_id p) (date_id q)
              = lex (String.compare (published_date p) (published_date q))
                    (String.compare (fstr (arxiv_id p)) (fstr (arxiv_id q)))).
  { unfold date_id. rewrite compare_append_same_length by done.
    now rewrite compare_append_prefix. }
  split_and!; [done|..].
  - intros Hlt. now rewrite H, Hlt.
  - intros Heq. rewrite H, Heq, (cmp_refl (cmp:=String.compare)). done.
  - intros Heq. rewrite Heq, (cmp_refl (cmp:=String.compare)) in H.
    symmetry in H. unfold lex in H.
    destruct (String.compare (published_date p) (published_date q)) eqn:E1; [|done..].
    apply String.compare_eq_iff in E1. apply String.compare_eq_iff in H. done.
Qed.

Lemma sort_keys_chronological_witness :
  String.length (published_date paper_jan31) = String.length (published_date paper_feb01)
  ∧ String.compare (date_id paper_jan31) (date_id paper_feb01) = Lt.
Proof.
  split; [reflexivity|].
  exact (proj1 (proj2 (sort_keys_chronological paper_jan31 paper_feb01 eq_refl)) eq_refl).
Defined.

(** * Further properties of the query executors *)

Lemma stored_items_SK table it :
  it ∈ stored_items table -> is_Some (str_attr "SK" it) ∧ is_Some (str_attr "PK" it).
Proof.
  intros (kv & -> & _)%list_elem_of_fmap.
  rewrite str_attr_stored_SK, str_attr_stored_PK. eauto.
Qed.

(** the items of a partition of the table, in the order of a scan *)
Lemma elem_of_partition_walk table args c it :
  KeyConditionExpression args = KeyEq "PK" c ->
  it ∈ (walk table table_keys args).*2
  <-> it ∈ stored_items table ∧ str_attr "PK" it = Some c.
Proof.
  intros Hc. rewrite list_elem_of_fmap. split.
  - intros (x & -> & (Hin & _ & Hpk & _)%elem_of_walk). rewrite Hc in Hpk. done.
  - intros (Hin & Hpk). destruct (stored_items_SK _ _ Hin) as [[sk Hsk] _].
    exists ((sk, (c, sk)), it). split; [done|].
    apply elem_of_walk. rewrite Hc. cbn. split_and!; [done| |done..].
    unfold okey. cbn. now rewrite Hsk, Hpk.
Qed.

Lemma walk_descending table ks args :
  ScanIndexForward args = false ->
  StronglySorted
    (fun a b => String.le (default "" (str_attr (range_attr ks) b))
                          (default "" (str_attr (range_attr ks) a)))
    (walk table ks args).*2.
Proof.
  intros Hf. eapply StronglySorted_fmap_impl; [|apply walk_sorted].
  intros a b (_ & Ha & _)%elem_of_walk (_ & Hb & _)%elem_of_walk Hlt.
  apply okey_inv in Ha as (Ha & _), Hb as (Hb & _).
  rewrite Ha, Hb. cbn [default from_option id].
  unfold key_lt in Hlt. rewrite Hf in Hlt. cbn in Hlt. unfold okey_compare, lex in Hlt.
  apply le_compare. destruct (String.compare b.1.1 a.1.1); done.
Qed.

Lemma StronglySorted_take {A} (R : relation A) n l :
  StronglySorted R l -> StronglySorted R (take n l).
Proof.
  intros Hs. rewrite <- (take_drop n l) in Hs. now apply StronglySorted_app in Hs as (_ & Hs & _).
Qed.

Lemma NoDup_take {A} n (l : list A) : NoDup l -> NoDup (take n l).
Proof.
  intros Hs. rewrite <- (take_drop n l) in Hs. now apply NoDup_app in Hs as (Hs & _).
Qed.

Lemma recent_result page_cap table category limit :
  (1 ≤ limit)%Z ->
  query_recent_in_category (ddb_query page_cap table) category limit
  = Ok (take (page_size page_cap (Some limit))
          (walk table table_keys (recent_args category limit)).*2).
Proof.
  intros Hl. unfold query_recent_in_category.
  assert (Hlimit : from_option (fun n => n <? 1)%Z false (Limit (recent_args category limit))
                   = false) by (cbn; now apply Z.ltb_ge).
  pose proof (ddb_query_page page_cap table (recent_args category limit)
                {| index_keys := table_keys; index_projection := None |}
                eq_refl eq_refl Hlimit []
                (walk table table_keys (recent_args category limit)) eq_refl) as Hp.
  cbn [index_keys] in Hp.
  change (ddb_query page_cap table _)
    with (ddb_query page_cap table
            (with_start (recent_args category limit) (start_of table_keys []))).
  rewrite Hp.
  cbn [mbind Result_bind Items]. f_equal.
  rewrite list_fmap_id. now rewrite fmap_take.
Qed.

(** X10. The recent papers of a category: a limit below 1 is refused by
    the store; for a limit of at least 1 the executor returns, from the
    partition of the category, at most [limit] stored items, each once, in
    descending order of the sort key (latest date first), and what it
    leaves out is not later than anything it returns; it returns the whole
    partition unless the page is full, which for a page size of at least
    [limit] means exactly [limit] items. *)
Theorem recent_in_category_spec (page_cap : positive) (table : Table)
    (category : string) (limit : Z) :
  ((limit < 1)%Z ->
     query_recent_in_category (ddb_query page_cap table) category limit
     = Raise (Exc "ParamValidationError"))
  ∧ ((1 ≤ limit)%Z ->
     ∃ items,
       query_recent_in_category (ddb_query page_cap table) category limit = Ok items
       ∧ length items ≤ Z.to_nat limit
       ∧ NoDup items
       ∧ (∀ it, it ∈ items ->
            it ∈ stored_items table
            ∧ str_attr "PK" it = Some ("CATEGORY#" +:+ category))
       ∧ StronglySorted (fun a b => String.le (sk_of b) (sk_of a)) items
       ∧ (∀ it it', it ∈ stored_items table ->
            str_attr "PK" it = Some ("CATEGORY#" +:+ category) ->
            it ∉ items -> it' ∈ items -> String.le (sk_of it) (sk_of it'))
       ∧ ((∀ it, it ∈ stored_items table ->
             str_attr "PK" it = Some ("CATEGORY#" +:+ category) -> it ∈ items)
          ∨ length items = Nat.min (Z.to_nat limit) (Pos.to_nat page_cap))).
Proof.
  split.
  - intros Hlt. unfold query_recent_in_category, ddb_query. cbn.
    apply Z.ltb_lt in Hlt. now rewrite Hlt.
  - intros Hl. eexists. split; [now apply recent_result|].
    set (W := (walk table table_keys (recent_args category limit)).*2).
    set (n := page_size page_cap (Some limit)).
    assert (Hdesc : StronglySorted (fun a b => String.le (sk_of b) (sk_of a)) W)
      by (apply (walk_descending table table_keys (recent_args category limit)); done).
    assert (Hmem := elem_of_partition_walk table (recent_args category limit)
                      ("CATEGORY#" +:+ category)).
    fold W in Hmem.
    split_and!.
    + rewrite length_take. unfold n, page_size. lia.
    + apply NoDup_take, walk_items_NoDup.
    + intros it Hit. apply Hmem; [done|].
      apply elem_of_take in Hit as (i & Hi & _). eapply list_elem_of_lookup_2; eauto.
    + now apply StronglySorted_take.
    + intros it it' Hin Hpk Hnot Hit'.
      assert (Hw : it ∈ W) by now apply Hmem.
      rewrite <- (take_drop n W) in Hw, Hdesc.
      apply elem_of_app in Hw as [Hw|Hw]; [done|].
      apply StronglySorted_app in Hdesc as (Hd & _ & _). now apply Hd.
    + destruct (decide (n ≤ length W)) as [Hn|Hn].
      * right. rewrite length_take. unfold n, page_size in *. lia.
      * left. intros it Hin Hpk. rewrite take_ge by lia. now apply Hmem.
Qed.

(** ** Papers of an author *)

(** the items of a partition of an index *)
Lemma elem_of_index_walk table ks args c it :
  KeyConditionExpression args = KeyEq (hash_attr ks) c ->
  it ∈ (walk table ks args).*2
  <-> it ∈ stored_items table
      ∧ str_attr (hash_attr ks) it = Some c
      ∧ is_Some (str_attr (range_attr ks) it).
Proof.
  intros Hc. rewrite list_elem_of_fmap. split.
  - intros (x & -> & (Hin & Hk & Hpk & _)%elem_of_walk). rewrite Hc in Hpk.
    apply okey_inv in Hk as (Hk & _). eauto.
  - intros (Hin & Hpk & [rk Hrk]).
    destruct (stored_items_SK _ _ Hin) as [[sk Hsk] [pk Hp]].
    exists ((rk, (pk, sk)), it). split; [done|].
    apply elem_of_walk. rewrite Hc. cbn. split_and!; [done| |done..].
    unfold okey. now rewrite Hrk, Hp, Hsk.
Qed.

Lemma author_result page_cap table author_name fuel :
  size table < fuel ->
  query_papers_by_author (ddb_query page_cap table) fuel author_name
  = Some (Ok (project_item author_index
                <$> (walk table (index_keys author_index) (author_args author_name)).*2)).
Proof.
  intros Hf. unfold query_papers_by_author.
  pose proof (query_loop_walk page_cap table (author_args author_name) author_index
                eq_refl eq_refl eq_refl fuel []
                (walk table (index_keys author_index) (author_args author_name)) []
                eq_refl) as Hp.
  cbn [app] in Hp. rewrite <- Hp.
  - reflexivity.
  - pose proof (walk_length table (index_keys author_index) (author_args author_name)). lia.
Qed.

Lemma project_author_index_lookup it name :
  project_item author_index it !! name
  = if bool_decide (name ∈ ["arxiv_id"; "title"; "categories"; "published";
                            "GSI1PK"; "GSI1SK"; "PK"; "SK"])
    then it !! name else None.
Proof.
  unfold project_item. cbn [index_projection author_index index_keys].
  rewrite map_lookup_filter. cbn [key_attrs hash_attr range_attr app fst].
  destruct (it !! name) as [v|]; cbn; [|now case_bool_decide].
  case_bool_decide.
  - now rewrite option_guard_True.
  - now rewrite option_guard_False.
Qed.

(** X11. The papers of an author: whatever the page size of the store, the
    paginated query returns (given enough iterations) the projection of
    all items of the author index with partition key AUTHOR#<name>, each
    stored item once, latest sort key first; a returned item carries the
    attributes arxiv_id, title, categories, published and the key
    attributes of the stored item, and no other attribute. *)
Theorem papers_by_author_spec (table : Table) (author_name : string) :
  ∃ found,
    (∀ page_cap fuel, size table < fuel ->
       query_papers_by_author (ddb_query page_cap table) fuel author_name
       = Some (Ok (project_item author_index <$> found)))
    ∧ NoDup found
    ∧ (∀ it, it ∈ found <->
         it ∈ stored_items table
         ∧ str_attr "GSI1PK" it = Some ("AUTHOR#" +:+ author_name)
         ∧ is_Some (str_attr "GSI1SK" it))
    ∧ StronglySorted (fun a b => String.le (gsi1sk_of b) (gsi1sk_of a)) found
    ∧ (∀ it name,
         project_item author_index it !! name
         = if bool_decide (name ∈ ["arxiv_id"; "title"; "categories"; "published";
                                   "GSI1PK"; "GSI1SK"; "PK"; "SK"])
           then it !! name else None).
Proof.
  exists (walk table (index_keys author_index) (author_args author_name)).*2.
  split_and!.
  - intros page_cap fuel Hf. now apply author_result.
  - apply walk_items_NoDup.
  - intros it.
    apply (elem_of_index_walk table (index_keys author_index) (author_args author_name)).
    reflexivity.
  - apply (walk_descending table (index_keys author_index) (author_args author_name)).
    reflexivity.
  - apply project_author_index_lookup.
Qed.

(** *** On the table of the loader *)

Lemma all_items_loader papers p it :
  p ∈ papers -> it ∈ project_paper p -> it ∈ all_items (project_all papers).
Proof.
  intros Hp Hit. rewrite all_items_project_all. apply elem_of_concat.
  exists (project_paper p). split; [now apply list_elem_of_fmap_2|done].
Qed.

Lemma loaded_stored_items papers table it :
  loaded_from papers table ->
  it ∈ stored_items table <-> table !! item_key it = Some it.
Proof.
  intros Hload. unfold stored_items. rewrite list_elem_of_fmap. split.
  - intros ([k it'] & -> & Hin%elem_of_map_to_list).
    destruct (Hload _ _ Hin) as (-> & p & _ & Hp).
    rewrite (project_paper_stored p) by done. done.
  - intros Hin. destruct (Hload _ _ Hin) as (_ & p & _ & Hp).
    exists (item_key it, it). split; [|now apply elem_of_map_to_list].
    now rewrite (project_paper_stored p).
Qed.

(** the items of the author partition among the items of a paper *)
Lemma author_partition_inv p it au :
  it ∈ project_paper p ->
  str_attr "GSI1PK" it = Some ("AUTHOR#" +:+ au) ->
  au ∈ authors_of p ∧ it = author_item p au.
Proof.
  intros Hit Hk.
  destruct (elem_of_project_paper _ _ Hit)
    as [->|[(? & _ & ->)|[(a & Ha & ->)|(? & _ & ->)]]]; try discriminate Hk.
  change (Some ("AUTHOR#" +:+ a) = Some ("AUTHOR#" +:+ au)) in Hk.
  injection Hk as Hk. apply (inj _) in Hk as ->. done.
Qed.

Lemma author_key_inv p it au sk :
  it ∈ project_paper p ->
  item_key it = ("AUTHORITEM#" +:+ au, sk) ->
  au ∈ authors_of p ∧ it = author_item p au ∧ date_id p = sk.
Proof.
  intros Hit Hk.
  destruct (elem_of_project_paper _ _ Hit)
    as [->|[(? & _ & ->)|[(a & Ha & ->)|(? & _ & ->)]]].
  - rewrite item_key_detail in Hk. injection Hk as Hk _. discriminate Hk.
  - rewrite item_key_cat in Hk. injection Hk as Hk _. discriminate Hk.
  - rewrite item_key_author in Hk. injection Hk as Hk <-.
    apply (inj _) in Hk as ->. done.
  - rewrite item_key_kw in Hk. injection Hk as Hk _. discriminate Hk.
Qed.

(** X12. Loader and author query together: on the table the loader makes
    of a corpus, the query for an author returns exactly projections of
    AuthorItems of papers of the corpus that list the author, and every
    paper of the corpus that lists the author is represented by an item
    with its sort key <published_date>#<arxiv_id> (the item of the paper
    itself, or of a later record with the same date and id, which
    overwrote it).  The returned item has the paper's id, title, categories
    and publication time, and neither a type tag nor an abstract. *)
Theorem loaded_author_query (papers : list Paper) (author_name : string) :
  ∃ table s found,
    main ∅ papers = Ok (table, s)
    ∧ (∀ page_cap fuel, size table < fuel ->
         query_papers_by_author (ddb_query page_cap table) fuel author_name
         = Some (Ok (project_item author_index <$> found)))
    ∧ (∀ it, it ∈ found ->
         ∃ p, p ∈ papers ∧ author_name ∈ authors_of p
              ∧ it = author_item p author_name)
    ∧ (∀ p, p ∈ papers -> author_name ∈ authors_of p ->
         ∃ p', p' ∈ papers ∧ author_name ∈ authors_of p'
               ∧ date_id p' = date_id p
               ∧ author_item p' author_name ∈ found)
    ∧ (∀ p, let reply := project_item author_index (author_item p author_name) in
         reply !! "arxiv_id" = Some (v_opt (arxiv_id p))
         ∧ reply !! "title" = Some (v_opt (title p))
         ∧ reply !! "categories" = Some (VList (categories_of p))
         ∧ reply !! "published" = Some (v_opt (published p))
         ∧ reply !! "GSI1SK" = Some (VStr (date_id p))
         ∧ reply !! "item_type" = None
         ∧ reply !! "abstract" = None).
Proof.
  pose proof (main_eq ∅ papers) as Hmain.
  pose proof (loaded_from_loader papers) as Hload.
  fold (loaded_table papers) in Hmain, Hload.
  assert (Hmem := elem_of_index_walk (loaded_table papers) (index_keys author_index)
                    (author_args author_name) ("AUTHOR#" +:+ author_name)).
  eexists (loaded_table papers), _,
    (walk (loaded_table papers) (index_keys author_index) (author_args author_name)).*2.
  split_and!.
  - exact Hmain.
  - intros page_cap fuel Hf. now apply author_result.
  - intros it (Hin & Hpk & _)%Hmem; [|reflexivity].
    apply (loaded_stored_items papers) in Hin; [|done].
    destruct (Hload _ _ Hin) as (_ & p & Hp & Hit).
    destruct (author_partition_inv _ _ _ Hit Hpk) as [Ha ->]. eauto.
  - intros p Hp Ha.
    assert (Hin : author_item p author_name ∈ all_items (project_all papers)).
    { apply (all_items_loader papers p); [done|]. unfold project_paper.
      rewrite elem_of_cons, !elem_of_app. right. right. left.
      now apply list_elem_of_fmap_2. }
    apply last_write_is_Some in Hin as [it Hit].
    rewrite item_key_author in Hit.
    assert (Hl : loaded_table papers !! ("AUTHORITEM#" +:+ author_name, date_id p) = Some it).
    { unfold loaded_table. now rewrite lookup_write_all, Hit. }
    destruct (Hload _ _ Hl) as (Hk & p' & Hp' & Hit').
    symmetry in Hk. destruct (author_key_inv _ _ _ _ Hit' Hk) as (Ha' & -> & Hd).
    exists p'. split_and!; [done..|].
    apply Hmem; [reflexivity|]. split_and!.
    + apply (loaded_stored_items papers); [done|]. now rewrite item_key_author, Hd.
    + reflexivity.
    + eexists. reflexivity.
  - intros p reply. unfold reply. rewrite !project_author_index_lookup.
    split_and!; reflexivity.
Qed.

(** ** Papers by keyword *)

Lemma keyword_result page_cap table keyword limit :
  (1 ≤ limit)%Z ->
  query_papers_by_keyword (ddb_query page_cap table) keyword limit
  = Ok (project_item keyword_index
          <$> take (page_size page_cap (Some limit))
                (walk table (index_keys keyword_index) (keyword_args keyword limit)).*2).
Proof.
  intros Hl. unfold query_papers_by_keyword.
  assert (Hlimit : from_option (fun n => n <? 1)%Z false (Limit (keyword_args keyword limit))
                   = false) by (cbn; now apply Z.ltb_ge).
  pose proof (ddb_query_page page_cap table (keyword_args keyword limit) keyword_index
                eq_refl eq_refl Hlimit []
                (walk table (index_keys keyword_index) (keyword_args keyword limit))
                eq_refl) as Hp.
  change (ddb_query page_cap table _)
    with (ddb_query page_cap table
            (with_start (keyword_args keyword limit)
               (start_of (index_keys keyword_index) []))).
  rewrite Hp. cbn [mbind Result_bind Items]. now rewrite fmap_take.
Qed.

Lemma keyword_partition_inv p it kw :
  it ∈ project_paper p ->
  str_attr "GSI2PK" it = Some ("KW#" +:+ kw) ->
  kw ∈ keywords_of p ∧ it = kw_item p kw.
Proof.
  intros Hit Hk.
  destruct (elem_of_project_paper _ _ Hit)
    as [->|[(? & _ & ->)|[(? & _ & ->)|(k & Hkw & ->)]]]; try discriminate Hk.
  change (Some ("KW#" +:+ k) = Some ("KW#" +:+ kw)) in Hk.
  injection Hk as Hk. apply (inj _) in Hk as ->. done.
Qed.

Lemma keyword_key_inv p it kw sk :
  it ∈ project_paper p ->
  item_key it = ("KEYWORDITEM#" +:+ kw, sk) ->
  kw ∈ keywords_of p ∧ it = kw_item p kw ∧ date_id p = sk.
Proof.
  intros Hit Hk.
  destruct (elem_of_project_paper _ _ Hit)
    as [->|[(? & _ & ->)|[(? & _ & ->)|(k & Hkw & ->)]]].
  - rewrite item_key_detail in Hk. injection Hk as Hk _. discriminate Hk.
  - rewrite item_key_cat in Hk. injection Hk as Hk _. discriminate Hk.
  - rewrite item_key_author in Hk. injection Hk as Hk _. discriminate Hk.
  - rewrite item_key_kw in Hk. injection Hk as Hk <-.
    apply (inj _) in Hk as ->. done.
Qed.

Lemma lower_length s : String.length (Str.lower s) = String.length s.
Proof. induction s as [|c s IH]; cbn; [done|]. now rewrite IH. Qed.

(** X13. Loader and keyword query together, for a limit of at least 1: on
    the table the loader makes of a corpus, the query for a keyword
    returns at most [limit] items, each the projection of the KeywordItem
    of a paper of the corpus that has the lower-cased keyword among its
    extracted keywords; every such paper is represented by an item with
    its sort key, unless the page is full; and a keyword of at most two
    characters or a stopword finds nothing, since the extractor never
    yields it. *)
Theorem loaded_keyword_query (papers : list Paper) (keyword : string)
    (limit : Z) (page_cap : positive) :
  ∃ table s found,
    main ∅ papers = Ok (table, s)
    ∧ ((1 ≤ limit)%Z ->
         query_papers_by_keyword (ddb_query page_cap table) keyword limit
         = Ok (project_item keyword_index <$> found))
    ∧ length found ≤ Z.to_nat limit
    ∧ (∀ it, it ∈ found ->
         ∃ p, p ∈ papers ∧ Str.lower keyword ∈ keywords_of p
              ∧ it = kw_item p (Str.lower keyword))
    ∧ ((∀ p, p ∈ papers -> Str.lower keyword ∈ keywords_of p ->
          ∃ p', p' ∈ papers ∧ Str.lower keyword ∈ keywords_of p'
                ∧ date_id p' = date_id p
                ∧ kw_item p' (Str.lower keyword) ∈ found)
       ∨ length found = Nat.min (Z.to_nat limit) (Pos.to_nat page_cap))
    ∧ (String.length keyword ≤ 2 ∨ Str.lower keyword ∈ STOPWORDS -> found = []).
Proof.
  pose proof (main_eq ∅ papers) as Hmain.
  pose proof (loaded_from_loader papers) as Hload.
  fold (loaded_table papers) in Hmain, Hload.
  set (W := (walk (loaded_table papers) (index_keys keyword_index)
               (keyword_args keyword limit)).*2).
  set (n := page_size page_cap (Some limit)).
  assert (Hmem := elem_of_index_walk (loaded_table papers) (index_keys keyword_index)
                    (keyword_args keyword limit) ("KW#" +:+ Str.lower keyword) ).
  fold W in Hmem.
  assert (Hsound : ∀ it, it ∈ take n W ->
            ∃ p, p ∈ papers ∧ Str.lower keyword ∈ keywords_of p
                 ∧ it = kw_item p (Str.lower keyword)).
  { intros it Hit. apply elem_of_take in Hit as (i & Hi & _).
    apply list_elem_of_lookup_2 in Hi.
    apply Hmem in Hi as (Hin & Hpk & _); [|reflexivity].
    apply (loaded_stored_items papers) in Hin; [|done].
    destruct (Hload _ _ Hin) as (_ & p & Hp & Hit).
    destruct (keyword_partition_inv _ _ _ Hit Hpk) as [Ha ->]. eauto. }
  eexists (loaded_table papers), _, (take n W).
  split_and!.
  - exact Hmain.
  - intros Hl. now apply keyword_result.
  - rewrite length_take. unfold n, page_size. lia.
  - exact Hsound.
  - destruct (decide (n ≤ length W)) as [Hn|Hn].
    { right. rewrite length_take. unfold n, page_size in *. lia. }
    left. rewrite take_ge by lia. intros p Hp Ha.
    assert (Hin : kw_item p (Str.lower keyword) ∈ all_items (project_all papers)).
    { apply (all_items_loader papers p); [done|]. unfold project_paper.
      rewrite elem_of_cons, !elem_of_app, kw_items_keywords. right. right. right.
      now apply list_elem_of_fmap_2. }
    apply last_write_is_Some in Hin as [it Hit].
    rewrite item_key_kw in Hit.
    assert (Hl : loaded_table papers !! ("KEYWORDITEM#" +:+ Str.lower keyword, date_id p)
                 = Some it).
    { unfold loaded_table. now rewrite lookup_write_all, Hit. }
    destruct (Hload _ _ Hl) as (Hk & p' & Hp' & Hit').
    symmetry in Hk. destruct (keyword_key_inv _ _ _ _ Hit' Hk) as (Ha' & -> & Hd).
    exists p'. split_and!; [done..|].
    apply Hmem; [reflexivity|]. split_and!.
    + apply (loaded_stored_items papers); [done|]. now rewrite item_key_kw, Hd.
    + reflexivity.
    + eexists. reflexivity.
  - intros Hbad. destruct (take n W) as [|it l] eqn:E; [done|]. exfalso.
    destruct (Hsound it) as (p & _ & Hkw & _); [left|].
    apply top_k_keywords_tokens, tokenize_spec in Hkw as (_ & Hlen & Hstop).
    rewrite lower_length in Hlen. destruct Hbad; [lia|done].
Qed.

(** * Further properties of the read API *)

Local Ltac reply_cases :=
  repeat first
    [ progress cbn [negb lift mbind Result_bind]
    | match goal with
      | |- context [match truthy_str ?o with _ => _ end] => destruct (truthy_str o)
      | |- context [match parse_limit ?i ?o with _ => _ end] => destruct (parse_limit i o)
      | |- context [negb (Str.truthy ?s)] => destruct (Str.truthy s)
      | |- context [negb (dict_truthy ?s)] => destruct (dict_truthy s) eqn:?
      | |- context [lift ?m _] => destruct m as [[?|[?]]|]
      | |- context [mbind _ ?m] => destruct m as [?|[?]]
      end ].

Lemma reply_shape query unquote int fuel req r :
  do_GET query unquote int fuel req = Some r ->
  (status r = 200 ∨ status r = 400 ∨ status r = 404 ∨ status r = 500)
  ∧ counted (payload r)
  ∧ (status r = 200 <-> ¬ is_error_body (payload r)).
Proof.
  unfold do_GET. destruct (route_of (path req)) eqn:R.
  - rewrite try_GET_recent by done.
    reply_cases; intros [= <-]; cbn; split_and!; auto; split; try lia; tauto.
  - rewrite try_GET_author by done. cbv zeta.
    reply_cases; intros [= <-]; cbn; split_and!; auto; split; try lia; tauto.
  - rewrite try_GET_keyword by done. cbv zeta.
    reply_cases; intros [= <-]; cbn; split_and!; auto; split; try lia; tauto.
  - rewrite try_GET_search by done.
    reply_cases; intros [= <-]; cbn; split_and!; auto; split; try lia; tauto.
  - rewrite try_GET_paper by done. cbv zeta.
    reply_cases; intros [= <-]; cbn; split_and!; auto; split; try lia; tauto.
  - rewrite try_GET_no_route by done.
    intros [= <-]; cbn; split_and!; auto; split; try lia; tauto.
Qed.

Lemma reply_exists page_cap table unquote int fuel req :
  size table < fuel ->
  is_Some (do_GET (ddb_query page_cap table) unquote int fuel req).
Proof.
  intros Hf. unfold do_GET. destruct (route_of (path req)) eqn:R.
  - rewrite try_GET_recent by done. reply_cases; eauto.
  - rewrite try_GET_author by done. cbv zeta.
    rewrite author_result by done. reply_cases; eauto.
  - rewrite try_GET_keyword by done. cbv zeta. reply_cases; eauto.
  - rewrite try_GET_search by done.
    destruct (truthy_str (qs_first (qs req) "category")); [|eauto].
    destruct (truthy_str (qs_first (qs req) "start")); [|eauto].
    destruct (truthy_str (qs_first (qs req) "end")); [|eauto].
    match goal with
    | |- context [query_papers_in_date_range _ _ ?c ?s ?e] =>
        destruct (decide (String.le (s +:+ "#") (e +:+ "#zzzzzzz")))
    end.
    + rewrite date_range_result by done. cbn. eauto.
    + rewrite date_range_inverted by (done || lia). cbn. eauto.
  - rewrite try_GET_paper by done. cbv zeta. reply_cases; eauto.
  - rewrite try_GET_no_route by done. eauto.
Qed.

(** X14. Every GET request gets exactly one reply.  Whatever the store,
    a reply has status 200, 400, 404 or 500, the [count] of a list body is
    the number of papers in the body, and the body is an error object
    exactly when the status is not 200.  On a table, with as many loop
    iterations as the table has items and one more, [do_GET] does reply, on
    every route and for every page size. *)
Theorem do_GET_reply_shape (unquote : string -> string) (int : string -> option Z)
    (req : Request) :
  (∀ query fuel r,
     do_GET query unquote int fuel req = Some r ->
     (status r = 200 ∨ status r = 400 ∨ status r = 404 ∨ status r = 500)
     ∧ counted (payload r)
     ∧ (status r = 200 <-> ¬ is_error_body (payload r)))
  ∧ (∀ page_cap table fuel,
       size table < fuel ->
       is_Some (do_GET (ddb_query page_cap table) unquote int fuel req)).
Proof.
  split.
  - intros query fuel r. apply reply_shape.
  - intros page_cap table fuel. apply reply_exists.
Qed.

Lemma recent_limit_rejected page_cap table category limit :
  (limit < 1)%Z ->
  query_recent_in_category (ddb_query page_cap table) category limit
  = Raise (Exc "ParamValidationError").
Proof.
  intros Hlt. unfold query_recent_in_category, ddb_query. cbn.
  apply Z.ltb_lt in Hlt. now rewrite Hlt.
Qed.

Lemma keyword_limit_rejected page_cap table keyword limit :
  (limit < 1)%Z ->
  query_papers_by_keyword (ddb_query page_cap table) keyword limit
  = Raise (Exc "ParamValidationError").
Proof.
  intros Hlt. unfold query_papers_by_keyword, ddb_query. cbn.
  apply Z.ltb_lt in Hlt. now rewrite Hlt.
Qed.

(** X15. The limit of the two limited routes.  Without a limit parameter
    the limit is 20.  The handler passes any integer on: a limit of at
    least 1 is answered 200 with at most that many papers, a limit below 1
    (0 or negative) is refused by the store and answered 500 with the body
    [{"error": "server error"}], not 400. *)
Theorem do_GET_limit (page_cap : positive) (table : Table)
    (unquote : string -> string) (int : string -> option Z)
    (fuel : nat) (req : Request) :
  let reply := do_GET (ddb_query page_cap table) unquote int fuel req in
  (qs_first (qs req) "limit" = None ->
     parse_limit int (qs_first (qs req) "limit") = Some 20%Z)
  ∧ (route_of (path req) = RecentRoute ->
     ∀ category limit,
       truthy_str (qs_first (qs req) "category") = Some category ->
       parse_limit int (qs_first (qs req) "limit") = Some limit ->
       ((limit < 1)%Z ->
          ∃ extra, reply = Some (send 500 (ErrorBody "server error") extra))
       ∧ ((1 ≤ limit)%Z ->
          ∃ items,
            reply = Some (send 200 (RecentBody category items (length items))
                            [("category", LStr category); ("limit", LInt limit)])
            ∧ length items ≤ Z.to_nat limit))
  ∧ (route_of (path req) = KeywordRoute ->
     ∀ limit,
       let keyword := unquote (after_prefix "/papers/keyword/" (path req)) in
       parse_limit int (qs_first (qs req) "limit") = Some limit ->
       Str.truthy keyword = true ->
       ((limit < 1)%Z ->
          ∃ extra, reply = Some (send 500 (ErrorBody "server error") extra))
       ∧ ((1 ≤ limit)%Z ->
          ∃ items,
            reply = Some (send 200 (KeywordBody keyword items (length items))
                            [("keyword", LStr keyword); ("limit", LInt limit)])
            ∧ length items ≤ Z.to_nat limit)).
Proof.
  intros reply. unfold reply, do_GET. split_and!.
  - now intros ->.
  - intros R category limit Hc Hl. rewrite try_GET_recent, Hc, Hl by done. split.
    + intros Hlt. rewrite recent_limit_rejected by done. cbn. eauto.
    + intros Hge. rewrite recent_result by done. cbn. eexists. split; [reflexivity|].
      rewrite length_take. unfold page_size. lia.
  - intros R limit. cbv zeta.
    set (keyword := unquote (after_prefix "/papers/keyword/" (path req))).
    intros Hl Hk. rewrite try_GET_keyword by done. cbv zeta.
    fold keyword. rewrite Hl, Hk. cbn [negb]. split.
    + intros Hlt. rewrite keyword_limit_rejected by done. cbn. eauto.
    + intros Hge. rewrite keyword_result by done. cbn. eexists. split; [reflexivity|].
      rewrite length_fmap, length_take. unfold page_size. lia.
Qed.

(** a limit of 0 on the January table *)
Example limit_zero_january :
  do_GET (ddb_query 5 january_table) (fun s => s) decimal_int 20
    {| path := "/papers/recent";
       qs := [("category", ("cs.LG", [])); ("limit", ("0", []))] |}
  = Some (send 500 (ErrorBody "server error")
            [("exception", LStr "ParamValidationError")]).
Proof. compute_done. Qed.

(** ** The order of the routes *)

Lemma startswith_split p : forall s,
  Str.startswith p s = true -> s = p +:+ Str.drop (String.length p) s.
Proof.
  induction p as [|a p IH]; intros [|b s]; cbn; try done.
  case_decide as Hab; [|done]. subst b. intros H%IH.
  rewrite append_cons. now f_equal.
Qed.

Lemma route_of_papers id :
  route_of ("/papers/" +:+ id)
  = if bool_decide (id = "recent") then RecentRoute
    else if Str.startswith "author/" id then AuthorRoute
    else if Str.startswith "keyword/" id then KeywordRoute
    else if Str.startswith "search" id then SearchRoute
    else PaperRoute.
Proof.
  unfold route_of.
  change (Str.startswith "/papers/author/" ("/papers/" +:+ id))
    with (Str.startswith "author/" id).
  change (Str.startswith "/papers/keyword/" ("/papers/" +:+ id))
    with (Str.startswith "keyword/" id).
  change (Str.startswith "/papers/search" ("/papers/" +:+ id))
    with (Str.startswith "search" id).
  change (Str.startswith "/papers/" ("/papers/" +:+ id)) with true.
  destruct (decide (id = "recent")) as [->|Hne]; [done|].
  rewrite (bool_decide_eq_false_2 (id = "recent")) by done.
  rewrite bool_decide_eq_false_2; [done|].
  change "/papers/recent" with ("/papers/" +:+ "recent").
  intros H. now apply (inj _) in H.
Qed.

Lemma item_body_inv query unquote int fuel req r it :
  do_GET query unquote int fuel req = Some r ->
  payload r = ItemBody it ->
  route_of (path req) = PaperRoute
  ∧ Str.truthy (after_prefix "/papers/" (path req)) = true
  ∧ get_paper_by_id query (unquote (after_prefix "/papers/" (path req))) = Ok (Some it)
  ∧ it ≠ ∅
  ∧ status r = 200.
Proof.
  unfold do_GET. destruct (route_of (path req)) eqn:R.
  - rewrite try_GET_recent by done. reply_cases; intros [= <-]; cbn; done.
  - rewrite try_GET_author by done. cbv zeta. reply_cases; intros [= <-]; cbn; done.
  - rewrite try_GET_keyword by done. cbv zeta. reply_cases; intros [= <-]; cbn; done.
  - rewrite try_GET_search by done. reply_cases; intros [= <-]; cbn; done.
  - rewrite try_GET_paper by done. cbv zeta.
    destruct (Str.truthy (after_prefix "/papers/" (path req))); cbn [negb];
      [|intros [= <-]; cbn; done].
    destruct (get_paper_by_id query _) as [item|[e]]; cbn [mbind Result_bind];
      [|intros [= <-]; cbn; done].
    destruct (dict_truthy item) eqn:Ht; cbn [negb]; intros [= <-]; cbn; [|done].
    intros [= <-]. destruct item as [m|]; [|done]. cbn in Ht |- *.
    apply negb_true_iff, bool_decide_eq_false in Ht. done.
  - rewrite try_GET_no_route by done. intros [= <-]; cbn; done.
Qed.

(** X16. The routes are tested in a fixed order on the path as it was
    sent, before any decoding: [/papers/<raw>] reaches the lookup by id
    exactly when [raw] is not [recent] and does not start with [author/],
    [keyword/] or [search], and the id that is looked up is the decoded
    [raw].  So the plain path of a paper whose id is [recent] is answered
    by another route and never carries the paper, while a path that
    escapes a character of the id, as [/papers/%72ecent] does, reaches the
    lookup of that id.  A reply that carries an item has status 200 and
    comes from the lookup route only: the path is [/papers/<raw>] with a
    non-empty [raw], and the item is the non-empty result of the lookup of
    the decoded [raw]. *)
Theorem paper_route_reach (query : QueryArgs -> Result QueryResponse)
    (unquote : string -> string) (int : string -> option Z) (fuel : nat) :
  (∀ raw, route_of ("/papers/" +:+ raw) = PaperRoute <->
          raw ≠ "recent" ∧ Str.startswith "author/" raw = false
          ∧ Str.startswith "keyword/" raw = false
          ∧ Str.startswith "search" raw = false)
  ∧ (∀ raw params it,
       route_of ("/papers/" +:+ raw) = PaperRoute ->
       raw ≠ "" ->
       get_paper_by_id query (unquote raw) = Ok (Some it) ->
       it ≠ ∅ ->
       do_GET query unquote int fuel {| path := "/papers/" +:+ raw; qs := params |}
       = Some (send 200 (ItemBody it) [("arxiv_id", LStr (unquote raw))]))
  ∧ (∀ req r it,
       do_GET query unquote int fuel req = Some r ->
       payload r = ItemBody it ->
       ∃ raw, path req = "/papers/" +:+ raw
              ∧ route_of (path req) = PaperRoute
              ∧ raw ≠ ""
              ∧ get_paper_by_id query (unquote raw) = Ok (Some it)
              ∧ it ≠ ∅
              ∧ status r = 200)
  ∧ (∀ raw params r it,
       raw = "recent" ∨ Str.startswith "author/" raw = true
       ∨ Str.startswith "keyword/" raw = true ∨ Str.startswith "search" raw = true ->
       do_GET query unquote int fuel {| path := "/papers/" +:+ raw; qs := params |} = Some r ->
       payload r ≠ ItemBody it).
Proof.
  assert (Hroute : ∀ id, route_of ("/papers/" +:+ id) = PaperRoute <->
            id ≠ "recent" ∧ Str.startswith "author/" id = false
            ∧ Str.startswith "keyword/" id = false
            ∧ Str.startswith "search" id = false).
  { intros id. rewrite route_of_papers. case_bool_decide as Hr.
    { split; [done|]. intros [? _]. done. }
    destruct (Str.startswith "author/" id); [split; [done|]; intros (_ & ? & _); done|].
    destruct (Str.startswith "keyword/" id); [split; [done|]; intros (_ & _ & ? & _); done|].
    destruct (Str.startswith "search" id); [split; [done|]; intros (_ & _ & _ & ?); done|].
    done. }
  split_and!.
  - exact Hroute.
  - intros raw params it R Hraw Hget Hne. unfold do_GET.
    rewrite try_GET_paper by done. cbv zeta. cbn [path].
    change (after_prefix "/papers/" ("/papers/" +:+ raw)) with raw.
    destruct raw as [|c raw]; [done|]. cbn [Str.truthy negb].
    rewrite Hget. cbn [mbind Result_bind dict_truthy].
    rewrite bool_decide_eq_false_2 by done. reflexivity.
  - intros req r it Hr Hp.
    destruct (item_body_inv _ _ _ _ _ _ _ Hr Hp) as (R & Ht & Hq & Hne & Hs).
    exists (after_prefix "/papers/" (path req)). split_and!; try done.
    + apply (startswith_split "/papers/"). unfold route_of in R.
      destruct (Str.startswith "/papers/" (path req)); [done|].
      repeat case_match; done.
    + intros He. rewrite He in Ht. done.
  - intros id params r it Hid Hr Hp.
    destruct (item_body_inv _ _ _ _ _ _ _ Hr Hp) as (R & _). cbn [path] in R.
    apply Hroute in R as (H1 & H2 & H3 & H4).
    destruct Hid as [?|[?|[?|?]]]; congruence.
Qed.

(** a paper whose id is [recent]: the plain path is taken by the route of
    the recent papers, the escaped path fetches the paper *)
Example escaped_id_reaches_lookup :
  let table := write_all ∅ (all_items (project_all [paper_recent])) in
  let GET path :=
    do_GET (ddb_query 1 table) percent_decode decimal_int 20 {| path := path; qs := [] |} in
  percent_decode "%72ecent" = "recent"
  ∧ GET "/papers/recent" = Some (send 400 (ErrorBody "missing category") [])
  ∧ GET "/papers/%72ecent"
    = Some (send 200 (ItemBody (detail_item paper_recent)) [("arxiv_id", LStr "recent")]).
Proof. cbv zeta. split_and!; compute_done. Qed.

(** * Properties of the command line *)

Lemma get_result page_cap table id :
  ∃ r, get_paper_by_id (ddb_query page_cap table) id = Ok r.
Proof.
  unfold get_paper_by_id.
  change (ddb_query page_cap table _)
    with (ddb_query page_cap table
            (with_start (paper_id_args id) (start_of (index_keys paper_id_index) []))).
  rewrite (ddb_query_page page_cap table (paper_id_args id) paper_id_index
             eq_refl eq_refl eq_refl []
             (walk table (index_keys paper_id_index) (paper_id_args id)) eq_refl).
  cbn [mbind Result_bind Items]. eauto.
Qed.

Lemma printed_count tables fuel args out :
  cli_main tables fuel args = Some (Printed out) ->
  count out = length (results out)
  ∧ count out = match cmd args with CmdGet _ => count out `min` 1 | _ => count out end
  ∧ is_Some (truthy_str (table args)).
Proof.
  unfold cli_main. destruct (truthy_str (table args)) as [name|]; [|done].
  destruct (cmd args) as [c l|a|id|c s e|k l]; cbn.
  - destruct (query_recent_in_category _ _ _); intros [= <-]; cbn; eauto.
  - destruct (query_papers_by_author _ _ _) as [[?|?]|]; intros [= <-]; cbn; eauto.
  - destruct (get_paper_by_id _ _) as [r|?]; intros [= <-]; cbn.
    destruct (dict_truthy r); cbn; eauto.
  - destruct (query_papers_in_date_range _ _ _ _ _) as [[?|?]|]; intros [= <-]; cbn; eauto.
  - destruct (query_papers_by_keyword _ _ _); intros [= <-]; cbn; eauto.
Qed.

(** X17. The command line runner.  Without a table name (no [--table], no
    [DDB_TABLE], or an empty one) it ends with [SystemExit] before any
    query, whatever the command and the store.  What it prints has
    [count] equal to the number of [results], and at most one result for
    [get].  On a table, given enough loop iterations, a run always ends:
    it prints a result when the store accepts the query, and ends with the
    uncaught exception of the store when it does not, that is when the
    limit of [recent] or [keyword] is below 1 (ParamValidationError) or
    the bounds [<start_date>#] and [<end_date>#zzzzzzz] of [daterange] are
    out of order (ValidationException). *)
Theorem cli_main_outcomes (tables : string -> QueryArgs -> Result QueryResponse)
    (fuel : nat) (args : CliArgs) :
  (truthy_str (table args) = None ->
     ∀ tables' fuel',
       cli_main tables' fuel' args
       = Some (SystemExit "Missing table name. Use --table TABLE or set env DDB_TABLE."))
  ∧ (∀ out, cli_main tables fuel args = Some (Printed out) ->
       count out = length (results out)
       ∧ (∀ id, cmd args = CmdGet id -> count out ≤ 1)
       ∧ is_Some (truthy_str (table args)))
  ∧ (∀ page_cap t name,
       truthy_str (table args) = Some name ->
       tables name = ddb_query page_cap t ->
       size t < fuel ->
       ∃ e, cli_main tables fuel args = Some e
            ∧ (accepted (cmd args) = true -> is_printed e)
            ∧ (accepted (cmd args) = false -> e = Uncaught (refusal (cmd args)))).
Proof.
  split_and!.
  - intros Hn tables' fuel'. unfold cli_main. now rewrite Hn.
  - intros out Hout. destruct (printed_count _ _ _ _ Hout) as (Hc & Hg & Ht).
    split_and!; [done| |done]. intros id Hid. rewrite Hid in Hg. lia.
  - intros page_cap t name Hn Ht Hf. unfold cli_main. rewrite Hn, Ht.
    destruct (cmd args) as [c l|a|id|c s e|k l]; cbn [accepted refusal].
    + destruct (Z.leb_spec 1 l).
      * rewrite recent_result by done. cbn. eexists. split_and!; done.
      * rewrite recent_limit_rejected by done. cbn. eexists. split_and!; done.
    + rewrite author_result by done. cbn. eexists. split_and!; done.
    + destruct (get_result page_cap t id) as [r ->]. cbn. eexists. split_and!; done.
    + destruct (String.leb (s +:+ "#") (e +:+ "#zzzzzzz")) eqn:E.
      * apply leb_le in E. rewrite date_range_result by done. cbn.
        eexists. split_and!; done.
      * rewrite date_range_inverted; [|rewrite <- leb_le; congruence|lia].
        cbn. eexists. split_and!; done.
    + destruct (Z.leb_spec 1 l).
      * rewrite keyword_result by done. cbn. eexists. split_and!; done.
      * rewrite keyword_limit_rejected by done. cbn. eexists. split_and!; done.
Qed.

(** a date range that ends before it starts, and a limit of 0 *)
Example cli_refused_january :
  cli_main (fun _ => ddb_query 1 january_table) 20
    {| cmd := CmdDaterange "cs.LG" "2024-02-01" "2024-01-01"; table := Some "papers" |}
  = Some (Uncaught (Exc "ValidationException"))
  ∧ cli_main (fun _ => ddb_query 1 january_table) 20
      {| cmd := CmdRecent "cs.LG" 0; table := Some "papers" |}
    = Some (Uncaught (Exc "ParamValidationError")).
Proof. split; reflexivity. Qed.

(** X18. Loader and command line together: on the table the loader makes
    of a corpus, [get <id>] prints one result, the detail item of a paper
    of the corpus with that id, with [count] 1, when the corpus has such a
    paper; otherwise it prints no result and [count] 0. *)
Theorem cli_get_loaded (papers : list Paper) (page_cap : positive)
    (tables : string -> QueryArgs -> Result QueryResponse)
    (fuel : nat) (name id : string) :
  Str.truthy name = true ->
  tables name = ddb_query page_cap (write_all ∅ (all_items (project_all papers))) ->
  ∃ out,
    cli_main tables fuel {| cmd := CmdGet id; table := Some name |} = Some (Printed out)
    ∧ query_type out = "get_paper_by_id"
    ∧ parameters out = [("arxiv_id", LStr id)]
    ∧ ((∃ p, p ∈ papers ∧ fstr (arxiv_id p) = id) ->
         ∃ p, p ∈ papers ∧ fstr (arxiv_id p) = id
              ∧ results out = [detail_item p] ∧ count out = 1)
    ∧ ((∀ p, p ∈ papers -> fstr (arxiv_id p) ≠ id) ->
         results out = [] ∧ count out = 0).
Proof.
  intros Hname Ht. unfold cli_main. cbn [table cmd truthy_str]. rewrite Hname, Ht.
  rewrite (get_paper_by_id_loaded page_cap papers) by apply loaded_from_loader.
  cbn [printed]. eexists. split_and!; [reflexivity..| |]; cbn [results count].
  - intros (p & Hp & Hid).
    assert (Hin : detail_item p ∈ all_items (project_all papers))
      by (apply (all_items_loader papers p); [done|left]).
    apply last_write_is_Some in Hin as [it Hit].
    rewrite item_key_detail, Hid in Hit.
    rewrite lookup_write_all, Hit. cbn [from_option].
    assert (Hl : write_all ∅ (all_items (project_all papers)) !! ("PAPER#" +:+ id, "DETAIL")
                 = Some it) by now rewrite lookup_write_all, Hit.
    destruct (loader_detail_lookup papers id it Hl) as (p' & Hp' & Hid' & ->).
    exists p'. split_and!; [done..| |].
    + replace (dict_truthy (Some (detail_item p'))) with true; [done|].
      symmetry. apply negb_true_iff, bool_decide_eq_false. intros He.
      apply (f_equal (fun m => m !! "SK")) in He. rewrite lookup_empty in He. done.
    + replace (dict_truthy (Some (detail_item p'))) with true; [done|].
      symmetry. apply negb_true_iff, bool_decide_eq_false. intros He.
      apply (f_equal (fun m => m !! "SK")) in He. rewrite lookup_empty in He. done.
  - intros Hnone.
    destruct (write_all ∅ (all_items (project_all papers)) !! ("PAPER#" +:+ id, "DETAIL"))
      as [it|] eqn:E; [|done].
    destruct (loader_detail_lookup papers id it E) as (p & Hp & Hid & _).
    now apply Hnone in Hp.
Qed.


Lemma cli_get_loaded_witness :
  Str.truthy "papers" = true
  ∧ (fun _ : string => ddb_query 1 january_table) "papers" = ddb_query 1 january_table
  ∧ ∃ out,
      cli_main (fun _ => ddb_query 1 january_table) 0
        {| cmd := CmdGet "2401.17001"; table := Some "papers" |} = Some (Printed out)
      ∧ count out = 1.
Proof.
  split; [reflexivity|]. split; [reflexivity|].
  assert (Ht : (fun _ : string => ddb_query 1 january_table) "papers"
               = ddb_query 1 (write_all ∅
                   (all_items (project_all [paper_jan31; paper_feb01; paper_undated]))))
    by (unfold january_table; reflexivity).
  destruct (cli_get_loaded [paper_jan31; paper_feb01; paper_undated] 1
              (fun _ => ddb_query 1 january_table) 0 "papers" "2401.17001"
              eq_refl Ht) as (out & Hout & _ & _ & Hfound & _).
  exists out. split; [exact Hout|].
  destruct Hfound as (p & _ & _ & _ & Hc); [|exact Hc].
  exists paper_jan31. split; [|reflexivity]. left.
Defined.

(** ** The log line *)

Lemma reply_extra_names query unquote int fuel req r :
  do_GET query unquote int fuel req = Some r ->
  (log_extra r).*1 ∈ extra_names
  ∧ (status r = 500 <-> (log_extra r).*1 = ["exception"]).
Proof.
  unfold do_GET, extra_names. destruct (route_of (path req)) eqn:R.
  - rewrite try_GET_recent by done.
    reply_cases; intros [= <-]; cbn; (split; [set_solver|split; intros; first [lia|done]]).
  - rewrite try_GET_author by done. cbv zeta.
    reply_cases; intros [= <-]; cbn; (split; [set_solver|split; intros; first [lia|done]]).
  - rewrite try_GET_keyword by done. cbv zeta.
    reply_cases; intros [= <-]; cbn; (split; [set_solver|split; intros; first [lia|done]]).
  - rewrite try_GET_search by done.
    reply_cases; intros [= <-]; cbn; (split; [set_solver|split; intros; first [lia|done]]).
  - rewrite try_GET_paper by done. cbv zeta.
    reply_cases; intros [= <-]; cbn; (split; [set_solver|split; intros; first [lia|done]]).
  - rewrite try_GET_no_route by done.
    intros [= <-]; cbn; (split; [set_solver|split; intros; first [lia|done]]).
Qed.

(** X20. The log line of a reply.  Whatever the request and the store, the
    line [log_request_stdout] prints for a reply of [do_GET] carries the
    method, the request target, the status that was sent and the
    duration, and every [extra] field with its value: no [extra] field
    overwrites one of the four base fields or another [extra] field.  The
    line has an [exception] field exactly when the status is 500. *)
Theorem log_line_fields (query : QueryArgs -> Result QueryResponse)
    (unquote : string -> string) (int : string -> option Z) (fuel : nat)
    (req : Request) (command raw_path : string) (dur_ms : Z) (r : Reply) :
  do_GET query unquote int fuel req = Some r ->
  let line := log_request_stdout command raw_path (status r) dur_ms (log_extra r) in
  line !! "method" = Some (LStr command)
  ∧ line !! "path" = Some (LStr raw_path)
  ∧ line !! "status" = Some (LInt (Z.of_nat (status r)))
  ∧ line !! "duration_ms" = Some (LInt dur_ms)
  ∧ (∀ k v, (k, v) ∈ log_extra r -> line !! k = Some v)
  ∧ size line = 4 + length (log_extra r)
  ∧ (status r = 500 <-> is_Some (line !! "exception")).
Proof.
  intros Hr line. destruct (reply_extra_names _ _ _ _ _ _ Hr) as [Hn H500].
  unfold line, log_request_stdout. clear line Hr.
  destruct r as [st body extra]. cbn [status log_extra] in *.
  unfold extra_names in Hn. rewrite !elem_of_cons, elem_of_nil in Hn.
  destruct Hn as [Hn|[Hn|[Hn|[Hn|[Hn|[Hn|[Hn|[]]]]]]]].
  - destruct extra; [|done]. cbn. split_and!; try done.
    + intros k v []%elem_of_nil.
    + rewrite H500. split; [done|]. intros [? ?]. done.
  - destruct extra as [|[k1 v1] [|[k2 v2] [|]]]; try done. injection Hn as -> ->.
    cbn. split_and!; try done.
    + intros k v. rewrite !elem_of_cons, elem_of_nil. intros [[= -> ->]|[[= -> ->]|[]]]; done.
    + rewrite H500. split; [done|]. intros [? ?]. done.
  - destruct extra as [|[k1 v1] [|]]; try done. injection Hn as ->.
    cbn. split_and!; try done.
    + intros k v. rewrite !elem_of_cons, elem_of_nil. intros [[= -> ->]|[]]; done.
    + rewrite H500. split; [done|]. intros [? ?]. done.
  - destruct extra as [|[k1 v1] [|[k2 v2] [|]]]; try done. injection Hn as -> ->.
    cbn. split_and!; try done.
    + intros k v. rewrite !elem_of_cons, elem_of_nil. intros [[= -> ->]|[[= -> ->]|[]]]; done.
    + rewrite H500. split; [done|]. intros [? ?]. done.
  - destruct extra as [|[k1 v1] [|[k2 v2] [|[k3 v3] [|]]]]; try done.
    injection Hn as -> -> ->.
    cbn. split_and!; try done.
    + intros k v. rewrite !elem_of_cons, elem_of_nil.
      intros [[= -> ->]|[[= -> ->]|[[= -> ->]|[]]]]; done.
    + rewrite H500. split; [done|]. intros [? ?]. done.
  - destruct extra as [|[k1 v1] [|]]; try done. injection Hn as ->.
    cbn. split_and!; try done.
    + intros k v. rewrite !elem_of_cons, elem_of_nil. intros [[= -> ->]|[]]; done.
    + rewrite H500. split; [done|]. intros [? ?]. done.
  - destruct extra as [|[k1 v1] [|]]; try done. injection Hn as ->.
    cbn. split_and!; try done.
    + intros k v. rewrite !elem_of_cons, elem_of_nil. intros [[= -> ->]|[]]; done.
    + rewrite H500. split; [done|]. eauto.
Qed.

Lemma log_line_fields_witness :
  do_GET (failing_store "boom") (fun s => s) decimal_int 1 search_without_dates
  = Some (send 500 (ErrorBody "server error") [("exception", LStr "boom")])
  ∧ log_request_stdout "GET" "/papers/search" 500 3 [("exception", LStr "boom")]
    !! "status" = Some (LInt 500).
Proof.
  assert (H : do_GET (failing_store "boom") (fun s => s) decimal_int 1 search_without_dates
              = Some (send 500 (ErrorBody "server error") [("exception", LStr "boom")]))
    by reflexivity.
  split; [exact H|].
  exact (proj1 (proj2 (proj2
           (log_line_fields _ _ _ _ _ "GET" "/papers/search" 3 _ H)))).
Defined.

(** * Properties of the table creation *)

(** X19. [ensure_table] on a service that answers.  A table that exists is
    used as it is, whatever its keys and indexes, and nothing is created;
    a table that does not exist is created with the key schema PK/SK and
    the three indexes of the queries, and no other table is touched; a
    second call finds the table and changes nothing.  When the service
    fails with anything but the code ResourceNotFoundException, the
    failure is passed on.  The description defines exactly the key
    attributes of the table and of its indexes, each of type S. *)
Theorem ensure_table_spec (acc : Account) (table_name : string) :
  (outage acc = None ->
     ∃ acc',
       ensure_table acc table_name = Returned (acc', table_name)
       ∧ (∀ d, account_tables acc !! table_name = Some d -> acc' = acc)
       ∧ (account_tables acc !! table_name = None ->
            account_tables acc' !! table_name = Some params)
       ∧ (∀ other, other ≠ table_name ->
            account_tables acc' !! other = account_tables acc !! other)
       ∧ outage acc' = None
       ∧ ensure_table acc' table_name = Returned (acc', table_name))
  ∧ (∀ e, outage acc = Some e -> e ≠ ClientError "ResourceNotFoundException" ->
       ensure_table acc table_name = Raised e)
  ∧ (attribute_definitions params).*1 = key_attributes params
  ∧ (∀ a, a ∈ attribute_definitions params -> a.2 = "S")
  ∧ NoDup (attribute_definitions params).*1.
Proof.
  split_and!.
  - intros Hout. unfold ensure_table, describe_table. rewrite Hout.
    destruct (account_tables acc !! table_name) as [d|] eqn:E.
    + exists acc. rewrite Hout, E. split_and!; try done.
    + rewrite bool_decide_eq_false_2 by (intros H; now apply H).
      unfold create_table. rewrite Hout, E.
      unfold wait_table_exists, describe_table. cbn [outage account_tables].
      rewrite lookup_insert_eq. eexists. split_and!; [reflexivity|done| | | |].
      * intros _. cbn. now rewrite lookup_insert_eq.
      * intros other Hne. cbn. now rewrite lookup_insert_ne.
      * reflexivity.
      * cbn. now rewrite lookup_insert_eq.
  - intros e Hout Hne. unfold ensure_table, describe_table. rewrite Hout.
    destruct e as [code|detail]; [|done].
    rewrite bool_decide_eq_true_2; [done|]. intros ->. done.
  - reflexivity.
  - intros a Ha. unfold params in Ha. cbn in Ha.
    rewrite !elem_of_cons, elem_of_nil in Ha.
    destruct Ha as [->|[->|[->|[->|[->|[->|[->|[->|[]]]]]]]]]; reflexivity.
  - compute_done.
Qed.
